(** * ai-assistant: reminders, sessions, delivery and trigger guard

    A shallow embedding of the parts of the WhatsApp assistant that carry
    state of their own:

    - [src/agent/tools/reminder.js]: the [set_reminder] tool, the scan for
      pending reminders and the mark-sent mutator;
    - [src/services/whatsapp.js]: message chunking, the send gateway, the
      inbound dispatcher and the reminder processing loop;
    - [src/index.js]: the shared-secret middleware of the cron routes and
      their handlers;
    - [./audio.js] (in [src/services/tts.js]): the test for an audio message;
    - [src/agent/index.js]: the messages the reasoning loop is given;
    - [src/agent/tools/notes.js], [webSearch.js], [calendar.js]: the notes
      tools, the web search tool and the creation of a calendar event;
    - [src/services/tts.js]: the bookkeeping of the temporary audio files.

    Strings are sequences of UTF-16 code units, as [String.prototype.length],
    [substring], [lastIndexOf] and [trim] see them.  Time values are
    milliseconds since the epoch; an Invalid Date is [None].  Numbers that the
    code only ever uses as whole numbers (lengths, indices, offsets in
    minutes, hours and days) are integers: fractional offsets and the finite
    range of a Date are outside the model. *)

From Stdlib Require Import List ZArith NArith Lia Bool Ascii String.
From Stdlib Require Import DecimalString DecimalZ DecimalPos.
Import ListNotations.

Local Open Scope Z_scope.

(* ===================================================================== *)
(** ** JavaScript values used by the sources                              *)
(* ===================================================================== *)

Module JS.

Definition code_unit := N.
Definition jsstring := list code_unit.

(** A string literal of the source made of ASCII characters only. *)
Definition js (s : string) : jsstring :=
  map N_of_ascii (list_ascii_of_string s).

Definition len (s : jsstring) : Z := Z.of_nat (List.length s).

Fixpoint str_eqb (a b : jsstring) : bool :=
  match a, b with
  | [], [] => true
  | x :: a', y :: b' => N.eqb x y && str_eqb a' b'
  | _, _ => false
  end.

(** Truthiness of a string: only the empty string is falsy. *)
Definition truthy_str (s : jsstring) : bool :=
  match s with [] => false | _ :: _ => true end.

(** Truthiness of an optional number: [undefined] and [0] are falsy. *)
Definition truthy_num (n : option Z) : bool :=
  match n with Some v => negb (v =? 0) | None => false end.

Definition LF : code_unit := 10%N.
Definition SPACE : code_unit := 32%N.

(** WhiteSpace and LineTerminator code points of ECMAScript, the characters
    [String.prototype.trim] strips. *)
Definition isWhiteSpace (c : code_unit) : bool :=
  ((9 <=? c) && (c <=? 13) || (c =? 32) || (c =? 160) || (c =? 5760)
   || (8192 <=? c) && (c <=? 8202) || (c =? 8232) || (c =? 8233)
   || (c =? 8239) || (c =? 8287) || (c =? 12288) || (c =? 65279))%N.

Fixpoint trimStart (s : jsstring) : jsstring :=
  match s with
  | c :: s' => if isWhiteSpace c then trimStart s' else s
  | [] => []
  end.

Definition trimEnd (s : jsstring) : jsstring := rev (trimStart (rev s)).

Definition trim (s : jsstring) : jsstring := trimEnd (trimStart s).

(** [s.substring(start, end)]: both indices are clamped to [0, length] and
    swapped when out of order. *)
Definition clamp (hi x : Z) : Z := Z.min (Z.max x 0) hi.

Definition substring (s : jsstring) (start end_ : Z) : jsstring :=
  let a := clamp (len s) start in
  let b := clamp (len s) end_ in
  let from := Z.min a b in
  let to := Z.max a b in
  firstn (Z.to_nat (to - from)) (skipn (Z.to_nat from) s).

(** [s.substring(start)]. *)
Definition substringFrom (s : jsstring) (start : Z) : jsstring :=
  substring s start (len s).

(** Greatest index [i <= k] with [s[i] = c], or [-1]. *)
Fixpoint lastIndexFrom (c : code_unit) (s : jsstring) (k : nat) : Z :=
  if match nth_error s k with Some d => N.eqb d c | None => false end
  then Z.of_nat k
  else match k with
       | O => -1
       | S k' => lastIndexFrom c s k'
       end.

(** [s.lastIndexOf(c, position)] for a one-character search string: the
    search starts at [position] clamped to [0, length - 1]. *)
Definition lastIndexOf (c : code_unit) (s : jsstring) (position : Z) : Z :=
  lastIndexFrom c s (Z.to_nat (Z.min (Z.max position 0) (len s - 1))).

(** [String(n)] for an integer. *)
Definition toString (n : Z) : jsstring :=
  js (NilEmpty.string_of_int (Z.to_int n)).

(** A Date: its time value, or [None] for an Invalid Date. *)
Definition Date := option Z.

(** [a <= b] on Dates: both are converted to numbers, and a comparison with
    NaN is false. *)
Definition date_le (a b : Date) : bool :=
  match a, b with
  | Some x, Some y => x <=? y
  | _, _ => false
  end.

(** A [Map] with string keys: entries in insertion order, one per key.
    [set] on a present key replaces the value in place. *)
Definition JsMap (V : Type) := list (jsstring * V).

Fixpoint map_get {V} (k : jsstring) (m : JsMap V) : option V :=
  match m with
  | [] => None
  | (k', v) :: m' => if str_eqb k' k then Some v else map_get k m'
  end.

Fixpoint map_set {V} (k : jsstring) (v : V) (m : JsMap V) : JsMap V :=
  match m with
  | [] => [(k, v)]
  | (k', v') :: m' =>
      if str_eqb k' k then (k, v) :: m' else (k', v') :: map_set k v m'
  end.

Definition map_values {V} (m : JsMap V) : list V := map snd m.
Definition map_keys {V} (m : JsMap V) : list jsstring := map fst m.

(** The values the guard of the cron routes can meet: a header or an
    environment variable is a string or [undefined]; the query parser also
    produces arrays and objects. *)
Inductive JsValue :=
| JsUndefined
| JsString (s : jsstring)
| JsObject.

Definition truthy (v : JsValue) : bool :=
  match v with
  | JsUndefined => false
  | JsString s => truthy_str s
  | JsObject => true
  end.

(** [a || b]. *)
Definition js_or (a b : JsValue) : JsValue := if truthy a then a else b.

(** [a === b]; an array or object freshly built by the parser is identical
    to nothing else. *)
Definition strict_eq (a b : JsValue) : bool :=
  match a, b with
  | JsUndefined, JsUndefined => true
  | JsString s, JsString t => str_eqb s t
  | _, _ => false
  end.

End JS.
Import JS.

(* ===================================================================== *)
(** ** src/agent/tools/reminder.js                                        *)
(* ===================================================================== *)

Module Reminder.

Record reminder := {
  id : jsstring;
  message : jsstring;
  triggerAt : Date;
  createdAt : Z;
  sent : bool;
}.

(** [const reminders = new Map()]. *)
Definition Store := JsMap reminder.

(** The arguments of the tool after schema validation: [message] is
    required, the four timing fields are optional. *)
Record Args := {
  arg_message : jsstring;
  delayMinutes : option Z;
  delayHours : option Z;
  delayDays : option Z;
  specificTime : option jsstring;
}.

(** What the host gives the tool: the Date parser of the engine and the
    formatter of the date library on a valid Date. *)
Record Host := {
  parseDate : jsstring -> Date;
  formatDate : Z -> jsstring;
}.

(** The three readings of the clock one call makes, in program order:
    [new Date()] the offsets are added to, [Date.now()] of the identifier,
    [new Date()] of [createdAt]. *)
Record Clock := {
  atTrigger : Z;
  atId : Z;
  atCreated : Z;
}.

(** Modelled from the spec: the date library the tool imports is not among
    the sources.  [addMinutes], [addHours] and [addDays] add the offset to
    the time value (the spec: due time = creation time + sum of all supplied
    offsets), a day being 24 hours. *)
Definition addMinutes (d : Date) (n : Z) : Date := option_map (fun t => t + n * 60000) d.
Definition addHours (d : Date) (n : Z) : Date := option_map (fun t => t + n * 3600000) d.
Definition addDays (d : Date) (n : Z) : Date := option_map (fun t => t + n * 86400000) d.

(** Modelled from the spec: [format(date, pattern)] of the same library.
    It formats a valid Date and throws RangeError('Invalid time value') on
    an Invalid Date, which is how an explicit time that fails to parse ends
    in the failure payload.  [inr] carries the message of the exception. *)
Definition format (h : Host) (d : Date) : jsstring + jsstring :=
  match d with
  | Some t => inl (formatDate h t)
  | None => inr (js "Invalid time value")
  end.

(** The serialized payloads of the tool. *)
Inductive Payload :=
| Success (reminderId message scheduledFor : jsstring)
| Failure (error : jsstring).

Definition num (n : option Z) : Z := match n with Some v => v | None => 0 end.

(** Lines 29-32: the offsets, each applied when truthy, on top of the
    current time. *)
Definition offsetFromNow (clk : Clock) (a : Args) : Date :=
  let triggerAt := Some (atTrigger clk) in
  let triggerAt :=
    if truthy_num (delayMinutes a)
    then addMinutes triggerAt (num (delayMinutes a)) else triggerAt in
  let triggerAt :=
    if truthy_num (delayHours a)
    then addHours triggerAt (num (delayHours a)) else triggerAt in
  let triggerAt :=
    if truthy_num (delayDays a)
    then addDays triggerAt (num (delayDays a)) else triggerAt in
  triggerAt.

(** The explicit time [if (specificTime)] lets through: the string when it
    is present and not empty. *)
Definition explicitTime (a : Args) : option jsstring :=
  match specificTime a with
  | Some s => if truthy_str s then Some s else None
  | None => None
  end.

(** Lines 24-33: the due time. *)
Definition computeTriggerAt (h : Host) (clk : Clock) (a : Args) : Date :=
  match explicitTime a with
  | Some s => parseDate h s
  | None => offsetFromNow clk a
  end.

(** [`rem_${Date.now()}`]. *)
Definition reminderId (clk : Clock) : jsstring :=
  js "rem_" ++ toString (atId clk).

(** [reminderTool.func]: the payload and the store after the call.  The
    store is written before [format] can throw, and the [catch] only turns
    the exception into a payload. *)
Definition func (h : Host) (clk : Clock) (a : Args) (reminders : Store)
  : Payload * Store :=
  let triggerAt := computeTriggerAt h clk a in
  let rid := reminderId clk in
  let reminders' :=
    map_set rid
      {| id := rid;
         message := arg_message a;
         triggerAt := triggerAt;
         createdAt := atCreated clk;
         sent := false |}
      reminders in
  match format h triggerAt with
  | inl scheduledFor => (Success rid (arg_message a) scheduledFor, reminders')
  | inr error => (Failure error, reminders')
  end.

(** [getPendingReminders], with [now] the reading of the clock on entry. *)
Fixpoint pendingOf (now : Z) (entries : Store) : list reminder :=
  match entries with
  | [] => []
  | (_, r) :: rest =>
      if negb (sent r) && date_le (triggerAt r) (Some now)
      then r :: pendingOf now rest
      else pendingOf now rest
  end.

Definition getPendingReminders (now : Z) (reminders : Store) : list reminder :=
  pendingOf now reminders.

(** [markReminderSent]: the stored object gets [sent = true]; an unknown
    identifier changes nothing. *)
Definition markReminderSent (rid : jsstring) (reminders : Store) : Store :=
  match map_get rid reminders with
  | Some r =>
      map_set rid
        {| id := id r; message := message r; triggerAt := triggerAt r;
           createdAt := createdAt r; sent := true |}
        reminders
  | None => reminders
  end.

End Reminder.

(* ===================================================================== *)
(** ** src/services/whatsapp.js                                           *)
(* ===================================================================== *)

Module WhatsApp.

(** *** splitMessage *)

(** Lines 186-192, "find a good break point": the last newline at or
    before [maxLength] unless it lies before the midpoint, else the last
    space at or before [maxLength], else [maxLength] itself.
    [breakPoint < maxLength / 2] is a comparison of reals, written
    [2 * breakPoint < maxLength]. *)
Definition findBreakPoint (remaining : jsstring) (maxLength : Z) : Z :=
  let breakPoint := lastIndexOf LF remaining maxLength in
  let breakPoint :=
    if (breakPoint =? -1) || (2 * breakPoint <? maxLength)
    then lastIndexOf SPACE remaining maxLength
    else breakPoint in
  if breakPoint =? -1 then maxLength else breakPoint.

(** The [while] loop of [splitMessage].  [fuel] bounds the number of
    iterations; [None] means the bound was reached with the loop still
    running. *)
Fixpoint splitLoop (fuel : nat) (maxLength : Z) (remaining : jsstring)
                   (chunks : list jsstring) : option (list jsstring) :=
  match fuel with
  | O => None
  | S fuel' =>
      if 0 <? len remaining then
        if len remaining <=? maxLength then Some (chunks ++ [remaining])
        else
          let breakPoint := findBreakPoint remaining maxLength in
          splitLoop fuel' maxLength
            (trim (substringFrom remaining breakPoint))
            (chunks ++ [substring remaining 0 breakPoint])
      else Some chunks
  end.

(** [splitMessage(message, maxLength)].  Every iteration with
    [maxLength >= 1] shortens [remaining], so one more iteration than the
    message has code units is enough (lemma [splitMessage_returns]). *)
Definition splitMessage (message : jsstring) (maxLength : Z)
  : option (list jsstring) :=
  if len message <=? maxLength then Some [message]
  else splitLoop (S (List.length message)) maxLength message [].

(** *** The process state and its collaborators *)

Inductive Role := user | assistant.

Record Entry := { role : Role; content : jsstring }.

Definition History := list Entry.

(** One call of [messages.create], with what the provider answered. *)
Record Outbound := {
  to : jsstring;
  body : jsstring;
  accepted : bool;
}.

(** One call of [runAgent]. *)
Record AgentCall := {
  userMessage : jsstring;
  history : History;
  userPhone : jsstring;
}.

(** The two process-wide maps, and the calls made so far to the transport
    and to the reasoning loop, oldest first. *)
Record World := {
  reminders : Reminder.Store;
  conversationHistory : JsMap History;
  transportLog : list Outbound;
  agentLog : list AgentCall;
}.

(** The collaborators.  [transport n] tells whether the provider accepts
    the call made after [n] earlier ones; [transcribeAudio] and [runAgent]
    return [None] when they throw.  [runAgent] is also given the number of
    earlier calls: the model need not answer the same way twice. *)
Record Env := {
  transport : nat -> bool;
  transcribeAudio : jsstring -> option jsstring;
  runAgent : nat -> jsstring -> History -> jsstring -> option jsstring;
  YOUR_WHATSAPP_NUMBER : jsstring;
}.

(** The inbound body as the dispatcher reads it: an optional text and,
    when it is an audio message ([isAudioMessage]), the media URL
    ([getAudioUrl]).  [Audio.view] computes it from the fields of the
    webhook body. *)
Record TwilioBody := {
  Body : option jsstring;
  audioUrl : option jsstring;
}.

(** Computations on the process state that return or throw.  What was
    written before a throw stays written. *)
Inductive Result (A : Type) :=
| Ok (a : A)
| Thrown.
Arguments Ok {A} a.
Arguments Thrown {A}.

Definition M (A : Type) : Type := World -> Result A * World.

Definition ret {A} (a : A) : M A := fun w => (Ok a, w).

Definition throw {A} : M A := fun w => (Thrown, w).

Definition bind {A B} (m : M A) (k : A -> M B) : M B :=
  fun w =>
    match m w with
    | (Ok a, w') => k a w'
    | (Thrown, w') => (Thrown, w')
    end.

(** [try { m } catch (error) { handler }]. *)
Definition try_catch {A} (m : M A) (handler : M A) : M A :=
  fun w =>
    match m w with
    | (Ok a, w') => (Ok a, w')
    | (Thrown, w') => handler w'
    end.

Notation "x <- m ;; k" := (bind m (fun x => k))
  (at level 61, m at next level, right associativity).
Notation "m ;;; k" := (bind m (fun _ => k))
  (at level 61, right associativity).

Definition get_world : M World := fun w => (Ok w, w).

(** [await getClient().messages.create({ body, from, to })]. *)
Definition messages_create (env : Env) (to_ body_ : jsstring) : M unit :=
  fun w =>
    let ok := transport env (List.length (transportLog w)) in
    let w' :=
      {| reminders := reminders w;
         conversationHistory := conversationHistory w;
         transportLog :=
           transportLog w ++ [{| to := to_; body := body_; accepted := ok |}];
         agentLog := agentLog w |} in
    if ok then (Ok tt, w') else (Thrown, w').

Fixpoint sendChunks (env : Env) (to_ : jsstring) (chunks : list jsstring)
  : M unit :=
  match chunks with
  | [] => ret tt
  | chunk :: rest => messages_create env to_ chunk ;;; sendChunks env to_ rest
  end.

(** [sendWhatsAppMessage]: the chunks are sent in order and the first
    failure is rethrown.  [splitMessage] at 1500 always returns (lemma
    [splitMessage_returns]), so the [None] branch is never taken. *)
Definition sendWhatsAppMessage (env : Env) (to_ message : jsstring) : M unit :=
  match splitMessage message 1500 with
  | Some chunks => sendChunks env to_ chunks
  | None => throw
  end.

(** [await runAgent(messageText, { history, userPhone: from })]. *)
Definition call_runAgent (env : Env) (text : jsstring) (h : History)
                         (from : jsstring) : M jsstring :=
  fun w =>
    let w' :=
      {| reminders := reminders w;
         conversationHistory := conversationHistory w;
         transportLog := transportLog w;
         agentLog :=
           agentLog w
           ++ [{| userMessage := text; history := h; userPhone := from |}] |} in
    match runAgent env (List.length (agentLog w)) text h from with
    | Some response => (Ok response, w')
    | None => (Thrown, w')
    end.

Definition set_history (from : jsstring) (h : History) : M unit :=
  fun w =>
    (Ok tt,
     {| reminders := reminders w;
        conversationHistory := map_set from h (conversationHistory w);
        transportLog := transportLog w;
        agentLog := agentLog w |}).

Definition set_reminders (r : Reminder.Store) : M unit :=
  fun w =>
    (Ok tt,
     {| reminders := r;
        conversationHistory := conversationHistory w;
        transportLog := transportLog w;
        agentLog := agentLog w |}).

(** The fixed texts of the dispatcher.  The emoji U+1F605 is the surrogate
    pair D83D DE05. *)
Definition SWEAT_SMILE : jsstring := [55357%N; 56837%N].

Definition transcriptionApology : jsstring :=
  SWEAT_SMILE
  ++ js " Sorry, I couldn't understand that audio. Could you try again or type your message?".

Definition didntCatchThat : jsstring :=
  js "I didn't catch that. Could you try again?".

Definition genericApology : jsstring :=
  SWEAT_SMILE ++ js " Oops! Something went wrong. Please try again in a moment.".

(** Lines 85-94: [history.push(user, assistant)], then
    [history.splice(0, history.length - 20)] when longer than 20. *)
Definition appendTurn (h : History) (messageText response : jsstring)
  : History :=
  let h' :=
    h ++ [{| role := user; content := messageText |};
          {| role := assistant; content := response |}] in
  if (20 <? List.length h')%nat then skipn (List.length h' - 20) h' else h'.

(** [conversationHistory.get(from) || []]. *)
Definition getHistory (from : jsstring) (w : World) : History :=
  match map_get from (conversationHistory w) with
  | Some h => h
  | None => []
  end.

(** Lines 51-69: the text of the event, or [None] when the handler has
    already returned after a failed transcription. *)
Definition resolveContent (env : Env) (from : jsstring) (b : TwilioBody)
  : M (option jsstring) :=
  match audioUrl b with
  | Some url =>
      match transcribeAudio env url with
      | Some text => ret (Some text)
      | None =>
          sendWhatsAppMessage env from transcriptionApology ;;;
          ret None
      end
  | None =>
      ret (Some (match Body b with
                 | Some s => if truthy_str s then s else []
                 | None => []
                 end))
  end.

(** [handleIncomingMessage]. *)
Definition handleIncomingMessage (env : Env) (from : jsstring) (b : TwilioBody)
  : M unit :=
  try_catch
    (resolved <- resolveContent env from b ;;
     match resolved with
     | None => ret tt
     | Some messageText =>
         if truthy_str (trim messageText) then
           w <- get_world ;;
           let h := getHistory from w in
           response <- call_runAgent env messageText h from ;;
           set_history from (appendTurn h messageText response) ;;;
           sendWhatsAppMessage env from response
         else
           sendWhatsAppMessage env from didntCatchThat
     end)
    (sendWhatsAppMessage env from genericApology).

(** [processPendingReminders]: each pending reminder is sent and, when the
    send succeeded, marked; a failed send is only logged. *)
Definition reminderText (r : Reminder.reminder) : jsstring :=
  [9200%N] ++ js " *Reminder:*" ++ [LF; LF] ++ Reminder.message r.

Fixpoint deliverPending (env : Env) (pending : list Reminder.reminder)
  : M unit :=
  match pending with
  | [] => ret tt
  | r :: rest =>
      try_catch
        (sendWhatsAppMessage env (YOUR_WHATSAPP_NUMBER env) (reminderText r) ;;;
         w <- get_world ;;
         set_reminders (Reminder.markReminderSent (Reminder.id r) (reminders w)))
        (ret tt) ;;;
      deliverPending env rest
  end.

Definition processPendingReminders (env : Env) (now : Z) : M nat :=
  w <- get_world ;;
  let pending := Reminder.getPendingReminders now (reminders w) in
  deliverPending env pending ;;;
  ret (List.length pending).

End WhatsApp.

(* ===================================================================== *)
(** ** src/index.js                                                       *)
(* ===================================================================== *)

Module Server.
Import WhatsApp.

(** What the guard reads of a request. *)
Record Request := {
  header_x_cron_secret : JsValue;
  query_secret : JsValue;
}.

(** The JSON bodies of the cron routes.  [CaughtErrorBody] is
    [{ error: error.message }] of a caught exception, whose text the model
    does not track. *)
Inductive JsonBody :=
| ErrorBody (error : jsstring)
| CaughtErrorBody
| ProcessedBody (processed : nat)
| MessageBody (message : jsstring).

Record Response := {
  status : Z;
  json : JsonBody;
}.

(** A middleware either answers or calls [next()]. *)
Inductive Middleware :=
| Respond (r : Response)
| Next.

(** [req.headers['x-cron-secret'] || req.query.secret]. *)
Definition suppliedSecret (req : Request) : JsValue :=
  js_or (header_x_cron_secret req) (query_secret req).

(** [validateCronSecret], with [CRON_SECRET] the value of
    [process.env.CRON_SECRET]. *)
Definition validateCronSecret (CRON_SECRET : JsValue) (req : Request)
  : Middleware :=
  let secret := suppliedSecret req in
  if negb (strict_eq secret CRON_SECRET)
  then Respond {| status := 401; json := ErrorBody (js "Unauthorized") |}
  else Next.

(** [app.get(path, validateCronSecret, handler)]: the handler runs only
    when the guard calls [next()]. *)
Definition guarded (CRON_SECRET : JsValue) (handler : Request -> M Response)
                   (req : Request) : M Response :=
  match validateCronSecret CRON_SECRET req with
  | Respond r => ret r
  | Next => handler req
  end.

(** The handler of [/cron/reminders]. *)
Definition remindersHandler (env : Env) (now : Z) (req : Request)
  : M Response :=
  try_catch
    (count <- processPendingReminders env now ;;
     ret {| status := 200; json := ProcessedBody count |})
    (ret {| status := 500; json := CaughtErrorBody |}).

Definition cronReminders (env : Env) (CRON_SECRET : JsValue) (now : Z)
  : Request -> M Response :=
  guarded CRON_SECRET (remindersHandler env now).

End Server.

(* ===================================================================== *)
(** ** Examples used to exercise the definitions                          *)
(* ===================================================================== *)

Module Examples.
Import Reminder WhatsApp Server.

(** A host whose parser knows one ISO string and rejects every other
    string, the empty one included, and whose formatter prints the time
    value. *)
Definition exampleHost : Host :=
  {| parseDate := fun s =>
       if str_eqb s (js "1970-01-01T00:00:10.000Z") then Some 10000 else None;
     formatDate := toString |}.

Definition noTiming (text : string) : Args :=
  {| arg_message := js text; delayMinutes := None; delayHours := None;
     delayDays := None; specificTime := None |}.

Definition at_ (t : Z) : Clock := {| atTrigger := t; atId := t; atCreated := t |}.

(** "in 90 minutes and 2 days". *)
Definition inAWhile : Args :=
  {| arg_message := js "call mom"; delayMinutes := Some 90; delayHours := None;
     delayDays := Some 2; specificTime := None |}.

Definition emptyTime : Args :=
  {| arg_message := js "call mom"; delayMinutes := None; delayHours := None;
     delayDays := None; specificTime := Some [] |}.

Definition badTime : Args :=
  {| arg_message := js "call mom"; delayMinutes := None; delayHours := None;
     delayDays := None; specificTime := Some (js "tomorrow-ish") |}.

(** Two calls whose [Date.now()] is the same millisecond. *)
Definition firstCreate : Payload * Store :=
  func exampleHost (at_ 1700000000000) (noTiming "call mom") [].

Definition secondCreate : Payload * Store :=
  func exampleHost (at_ 1700000000000) (noTiming "buy milk") (snd firstCreate).

Definition emptyWorld : World :=
  {| reminders := []; conversationHistory := [];
     transportLog := []; agentLog := [] |}.

(** A transport that rejects every call and a transcription that always
    fails. *)
Definition deadEnv : Env :=
  {| transport := fun _ => false;
     transcribeAudio := fun _ => None;
     runAgent := fun _ _ _ _ => None;
     YOUR_WHATSAPP_NUMBER := js "whatsapp:+10000000000" |}.

(** A transport that accepts every call, a transcription that always
    fails, a reasoning loop that echoes. *)
Definition echoEnv : Env :=
  {| transport := fun _ => true;
     transcribeAudio := fun _ => None;
     runAgent := fun _ text _ _ => Some text;
     YOUR_WHATSAPP_NUMBER := js "whatsapp:+10000000000" |}.

Definition voiceNote : TwilioBody :=
  {| Body := None; audioUrl := Some (js "https://api.twilio.com/media/1") |}.

Definition sender : jsstring := js "whatsapp:+15550001111".

Definition textHi : TwilioBody := {| Body := Some (js "hi"); audioUrl := None |}.

(** Eleven numbered turns: (q1, a1), ..., (q11, a11). *)
Definition elevenTurns : list (jsstring * jsstring) :=
  map (fun n => (js "q" ++ toString (Z.of_nat n), js "a" ++ toString (Z.of_nat n)))
      (seq 1 11).

(** A request with a wrong secret in the header, and a world with one
    reminder that is due. *)
Definition wrongSecret : Request :=
  {| header_x_cron_secret := JsString (js "guess");
     query_secret := JsUndefined |}.


Definition dueWorld : World :=
  {| reminders := snd firstCreate; conversationHistory := [];
     transportLog := []; agentLog := [] |}.

End Examples.

(* ===================================================================== *)
(** ** Vocabulary of the statements                                       *)
(* ===================================================================== *)

Module Spec.
Import Reminder WhatsApp Server.



(** The sum of the supplied offsets, in milliseconds. *)
Definition offsetMillis (a : Args) : Z :=
  num (delayMinutes a) * 60000
  + num (delayHours a) * 3600000
  + num (delayDays a) * 86400000.

(** The record [func] writes. *)
Definition created (clk : Clock) (a : Args) (due : Date) : reminder :=
  {| id := reminderId clk; message := arg_message a; triggerAt := due;
     createdAt := atCreated clk; sent := false |}.

(** The test of the scan. *)
Definition isDue (now : Z) (r : reminder) : bool :=
  negb (sent r) && date_le (triggerAt r) (Some now).

(** The last [n] elements of a list. *)
Definition lastN {A} (n : nat) (l : list A) : list A :=
  skipn (List.length l - n) l.

Definition turnEntries (t : jsstring * jsstring) : History :=
  [{| role := user; content := fst t |};
   {| role := assistant; content := snd t |}].

(** The history after a sequence of completed turns. *)
Definition playTurns (h : History) (turns : list (jsstring * jsstring))
  : History :=
  fold_left (fun acc t => appendTurn acc (fst t) (snd t)) turns h.

Definition noWhiteSpace (s : jsstring) : Prop :=
  Forall (fun c => isWhiteSpace c = false) s.

(** The text an inbound event resolves to: the transcription of an audio
    message ([None] when it fails), else [Body || '']. *)
Definition resolvedText (env : Env) (b : TwilioBody) : option jsstring :=
  match audioUrl b with
  | Some url => transcribeAudio env url
  | None =>
      Some (match Body b with
            | Some s => if truthy_str s then s else []
            | None => []
            end)
  end.

(** The world after one more call of the transport. *)
Definition logged (w : World) (o : list Outbound) : World :=
  {| reminders := reminders w;
     conversationHistory := conversationHistory w;
     transportLog := transportLog w ++ o;
     agentLog := agentLog w |}.

End Spec.

(* ===================================================================== *)
(** ** ./audio.js (in src/services/tts.js): detecting an audio message    *)
(* ===================================================================== *)

Module Audio.
Import WhatsApp.

(** The fields of the webhook body the code reads; each is a string or
    absent. *)
Record RawBody := {
  raw_Body : option jsstring;
  NumMedia : option jsstring;
  MediaContentType0 : option jsstring;
  MediaUrl0 : option jsstring;
}.

(** [v || d] for a field that is a string or absent. *)
Definition orElse (v : option jsstring) (d : jsstring) : jsstring :=
  match v with
  | Some s => if truthy_str s then s else d
  | None => d
  end.

Definition isDigit (c : code_unit) : bool := ((48 <=? c) && (c <=? 57))%N.

(** The value of the longest prefix of decimal digits, on top of [acc]. *)
Fixpoint digitsValue (acc : Z) (s : jsstring) : Z :=
  match s with
  | c :: s' =>
      if isDigit c then digitsValue (10 * acc + (Z.of_N c - 48)) s' else acc
  | [] => acc
  end.

(** [parseInt(s, 10)]: leading white space is skipped, one sign is read,
    then the longest prefix of digits; [None] is NaN.  The result is the
    exact integer; the code only compares it with [0], and a double is [0]
    exactly when the integer is. *)
Definition parseInt10 (s : jsstring) : option Z :=
  let s := trimStart s in
  let negative := match s with c :: _ => (c =? 45)%N | [] => false end in
  let s :=
    match s with
    | c :: s' => if ((c =? 45) || (c =? 43))%N then s' else s
    | [] => []
    end in
  match s with
  | c :: _ =>
      if isDigit c
      then Some (if negative then - digitsValue 0 s else digitsValue 0 s)
      else None
  | [] => None
  end.

(** [s.startsWith(prefix)]. *)
Fixpoint startsWith (s prefix : jsstring) : bool :=
  match prefix, s with
  | [], _ => true
  | p :: prefix', c :: s' => N.eqb c p && startsWith s' prefix'
  | _ :: _, [] => false
  end.

(** [isAudioMessage]: [numMedia === 0] is false for NaN. *)
Definition isAudioMessage (b : RawBody) : bool :=
  match parseInt10 (orElse (NumMedia b) (js "0")) with
  | Some 0 => false
  | _ => startsWith (orElse (MediaContentType0 b) []) (js "audio/")
  end.

Definition getAudioUrl (b : RawBody) : option jsstring := MediaUrl0 b.

(** What [handleIncomingMessage] makes of the webhook body.  An absent
    [MediaUrl0] reaches [transcribeAudio] as [undefined], which the download
    reads as the text "undefined". *)
Definition view (b : RawBody) : TwilioBody :=
  {| Body := raw_Body b;
     audioUrl :=
       if isAudioMessage b
       then Some (match getAudioUrl b with
                  | Some url => url
                  | None => js "undefined"
                  end)
       else None |}.

End Audio.

(* ===================================================================== *)
(** ** src/agent/index.js: what the reasoning loop is given               *)
(* ===================================================================== *)

Module Agent.
Import WhatsApp.

Inductive ChatMessage :=
| SystemMessage (content : jsstring)
| HumanMessage (content : jsstring)
| AIMessage (content : jsstring).

(** [l.slice(-n)]. *)
Definition sliceLast {A} (n : nat) (l : list A) : list A :=
  skipn (List.length l - n) l.

(** Lines 54-58: an entry becomes a message of its role. *)
Definition toChat (e : Entry) : ChatMessage :=
  match role e with
  | user => HumanMessage (content e)
  | assistant => AIMessage (content e)
  end.

(** Lines 48-63: the system prompt, the last ten entries of the history,
    the current message. *)
Definition buildMessages (systemPrompt : jsstring) (h : History)
                         (userMessage : jsstring) : list ChatMessage :=
  [SystemMessage systemPrompt]
  ++ map toChat (sliceLast 10 h)
  ++ [HumanMessage userMessage].

(** Line 72: [finalMessage.content || "I've completed the task!"]. *)
Definition finalResponse (content : jsstring) : jsstring :=
  if truthy_str content then content else js "I've completed the task!".

(** [runAgent] over a model: [invoke n messages] is the content of the last
    message the [n]-th invocation returns, [None] when it throws. *)
Definition runAgent (systemPrompt : jsstring)
                    (invoke : nat -> list ChatMessage -> option jsstring)
                    (n : nat) (userMessage : jsstring) (h : History)
                    (userPhone : jsstring) : option jsstring :=
  option_map finalResponse (invoke n (buildMessages systemPrompt h userMessage)).

End Agent.

(* ===================================================================== *)
(** ** The daily summary: whatsapp.js, calendar.js and index.js           *)
(* ===================================================================== *)

Module Daily.
Import WhatsApp Server.

(** One event of [getTodaysEventsTool] after the JSON round trip: a
    property that was [undefined] is absent. *)
Record DayEvent := {
  title : option jsstring;
  start : option jsstring;
  allDay : bool;
}.

(** What [calendarTool.getTodaysEvents.execute()] resolves to: the parsed
    payload of the tool, which is the agenda or, when anything threw inside
    the tool, [{success: false, error}]. *)
Inductive TodaysEvents :=
| Agenda (date : jsstring) (events : list DayEvent)
| CalendarFailure (error : option jsstring).

(** [`${v}`] of a property that may be absent. *)
Definition interpolate (v : option jsstring) : jsstring :=
  match v with Some s => s | None => js "undefined" end.

Definition SUNRISE : jsstring := [55356%N; 57093%N].
Definition CALENDAR : jsstring := [55357%N; 56517%N].
Definition PARTY : jsstring := [55356%N; 57225%N].
Definition MUSCLE : jsstring := [55357%N; 56490%N].
Definition ALARM : jsstring := [9200%N].

(** Lines 124-134: the line of the event at [index]. [formatStartTime] is
    [new Date(event.start).toLocaleTimeString('en-US', ...)]. *)
Definition eventLine (formatStartTime : option jsstring -> jsstring)
                     (index : nat) (e : DayEvent) : jsstring :=
  if allDay e then
    toString (Z.of_nat index + 1) ++ js ". " ++ SUNRISE ++ js " *"
    ++ interpolate (title e) ++ js "* (All day)" ++ [LF]
  else
    toString (Z.of_nat index + 1) ++ js ". " ++ ALARM ++ js " *"
    ++ interpolate (title e) ++ js "* at "
    ++ formatStartTime (start e) ++ [LF].

(** [result.events.forEach((event, index) => ...)], from [index]. *)
Fixpoint eventLines (formatStartTime : option jsstring -> jsstring)
                    (index : nat) (events : list DayEvent) : jsstring :=
  match events with
  | [] => []
  | e :: rest =>
      eventLine formatStartTime index e
      ++ eventLines formatStartTime (S index) rest
  end.

(** Lines 116-137: the text of the summary. *)
Definition summaryText (formatStartTime : option jsstring -> jsstring)
                       (date : jsstring) (events : list DayEvent) : jsstring :=
  let message := SUNRISE ++ js " *Good morning!*" ++ [LF; LF] in
  match events with
  | [] =>
      message ++ CALENDAR
      ++ js " No events scheduled for today. Enjoy your free day! " ++ PARTY
  | _ :: _ =>
      message ++ CALENDAR ++ js " *Today's Schedule (" ++ date ++ js "):*"
      ++ [LF; LF]
      ++ eventLines formatStartTime 0 events
      ++ [LF] ++ js "Have a productive day! " ++ MUSCLE
  end.

(** [sendDailyReminders]: on the failure payload [result.events] is
    undefined and reading its length throws; the [catch] rethrows. *)
Definition sendDailyReminders (env : Env)
                              (formatStartTime : option jsstring -> jsstring)
                              (today : TodaysEvents) : M unit :=
  match today with
  | CalendarFailure _ => throw
  | Agenda date events =>
      sendWhatsAppMessage env (YOUR_WHATSAPP_NUMBER env)
        (summaryText formatStartTime date events)
  end.

(** [handleDailySummary] of src/index.js. *)
Definition handleDailySummary (env : Env)
                              (formatStartTime : option jsstring -> jsstring)
                              (today : TodaysEvents) (req : Request)
  : M Response :=
  try_catch
    (sendDailyReminders env formatStartTime today ;;;
     ret {| status := 200; json := MessageBody (js "Daily summary sent") |})
    (ret {| status := 500; json := CaughtErrorBody |}).

Definition cronDailySummary (env : Env) (CRON_SECRET : JsValue)
                            (formatStartTime : option jsstring -> jsstring)
                            (today : TodaysEvents)
  : Request -> M Response :=
  guarded CRON_SECRET (handleDailySummary env formatStartTime today).

End Daily.

(* ===================================================================== *)
(** ** src/agent/tools/notes.js                                           *)
(* ===================================================================== *)

Module Notes.

Record note := {
  id : jsstring;
  content : jsstring;
  tags : list jsstring;
  createdAt : Z;
}.

(** [const notes = new Map()]. *)
Definition Store := JsMap note.

(** The arguments of [save_note]; [tags] defaults to the empty array. *)
Record SaveArgs := {
  arg_content : jsstring;
  arg_tags : option (list jsstring);
}.

(** The two readings of the clock of one call: [Date.now()] of the
    identifier, [new Date()] of [createdAt]. *)
Record Clock := {
  atId : Z;
  atCreated : Z;
}.

(** [{ success: true, noteId, content, tags }]. *)
Record SavePayload := {
  noteId : jsstring;
  preview : jsstring;
  saved_tags : list jsstring;
}.

(** [content.substring(0, 100) + (content.length > 100 ? '...' : '')]. *)
Definition previewOf (content : jsstring) : jsstring :=
  substring content 0 100 ++ (if 100 <? len content then js "..." else []).

(** [saveNoteTool.func]; nothing in its [try] can throw. *)
Definition saveNote (clk : Clock) (a : SaveArgs) (notes : Store)
  : SavePayload * Store :=
  let noteId := js "note_" ++ toString (atId clk) in
  let tags := match arg_tags a with Some t => t | None => [] end in
  let note :=
    {| id := noteId; content := arg_content a; tags := tags;
       createdAt := atCreated clk |} in
  ({| noteId := noteId; preview := previewOf (arg_content a);
      saved_tags := tags |},
   map_set noteId note notes).

(** The arguments of [get_notes]; [limit] is a whole number, 5 when left
    out. *)
Record GetArgs := {
  tag : option jsstring;
  limit : Z;
}.

(** [tags.includes(x)]. *)
Definition includes (l : list jsstring) (x : jsstring) : bool :=
  existsb (fun t => str_eqb t x) l.

(** [.sort((a, b) => b.createdAt - a.createdAt)]: the sort of an array is
    stable, so the result is the one arrangement by descending [createdAt]
    that keeps notes of equal time in their order; it is built here by
    inserting each note in front of the sorted rest. *)
Fixpoint insertNote (n : note) (sorted : list note) : list note :=
  match sorted with
  | [] => [n]
  | m :: rest =>
      if createdAt n <? createdAt m then m :: insertNote n rest
      else n :: m :: rest
  end.

Fixpoint sortNotes (l : list note) : list note :=
  match l with
  | [] => []
  | n :: rest => insertNote n (sortNotes rest)
  end.

(** [l.slice(0, end)]: a negative [end] counts from the end of the
    array. *)
Definition slice0 {A} (l : list A) (end_ : Z) : list A :=
  let length := Z.of_nat (List.length l) in
  let final := if end_ <? 0 then Z.max (length + end_) 0 else Z.min end_ length in
  firstn (Z.to_nat final) l.

(** Lines 55-60: all the notes, or those carrying the lower-cased tag
    when a tag is given. [toLowerCase] is [String.prototype.toLowerCase]. *)
Definition matchingNotes (toLowerCase : jsstring -> jsstring) (a : GetArgs)
                         (notes : Store) : list note :=
  let allNotes := map_values notes in
  match tag a with
  | Some t =>
      if truthy_str t
      then filter (fun n => includes (tags n) (toLowerCase t)) allNotes
      else allNotes
  | None => allNotes
  end.

(** Lines 62-65: most recent first, cut at [limit]. *)
Definition selectNotes (toLowerCase : jsstring -> jsstring) (a : GetArgs)
                       (notes : Store) : list note :=
  slice0 (sortNotes (matchingNotes toLowerCase a notes)) (limit a).




End Notes.

(* ===================================================================== *)
(** ** src/agent/tools/webSearch.js                                       *)
(* ===================================================================== *)

Module WebSearch.

(** One result of the search service, and the body of its answer. *)
Record SearchResult := {
  title : option jsstring;
  content : option jsstring;
  url : option jsstring;
}.

Record SearchData := {
  answer : option jsstring;
  results : option (list SearchResult);
}.

Record ResultView := {
  view_title : option jsstring;
  snippet : option jsstring;
  view_url : option jsstring;
}.

Inductive Payload :=
| Found (answer : option jsstring) (results : option (list ResultView))
| Failure (error : jsstring).

(** Lines 48-52: [{ title, snippet: r.content?.substring(0, 200), url }]. *)
Definition viewResult (r : SearchResult) : ResultView :=
  {| view_title := title r;
     snippet := option_map (fun c => substring c 0 200) (content r);
     view_url := url r |}.

(** [webSearchTool.func]. [search apiKey query] is the request to the
    search service and the reading of its body, [None] when either throws. *)
Definition func (TAVILY_API_KEY : option jsstring)
                (search : jsstring -> jsstring -> option SearchData)
                (query : jsstring) : Payload :=
  match TAVILY_API_KEY with
  | Some apiKey =>
      if truthy_str apiKey then
        match search apiKey query with
        | Some data =>
            Found (answer data)
                  (option_map (fun rs => map viewResult (firstn 3 rs))
                              (results data))
        | None => Failure (js "Failed to search the web")
        end
      else
        Failure (js "Web search is not configured. Add TAVILY_API_KEY to enable.")
  | None =>
      Failure (js "Web search is not configured. Add TAVILY_API_KEY to enable.")
  end.

End WebSearch.

(* ===================================================================== *)
(** ** src/agent/tools/calendar.js: creating an event                     *)
(* ===================================================================== *)

Module Calendar.

Inductive RecurrenceType := daily | weekly | biweekly | monthly.

Record CreateArgs := {
  title : jsstring;
  date : jsstring;
  startTime : jsstring;
  endTime : jsstring;
  recurring : option bool;
  recurrenceType : option RecurrenceType;
}.

(** The body of the insert request; the popup reminders are the same for
    every event. *)
Record EventRequest := {
  summary : jsstring;
  startDateTime : jsstring;
  endDateTime : jsstring;
  timeZone : jsstring;
  recurrence : option (list jsstring);
}.

Definition recurrenceMap (t : RecurrenceType) : jsstring :=
  match t with
  | daily => js "RRULE:FREQ=DAILY"
  | weekly => js "RRULE:FREQ=WEEKLY"
  | biweekly => js "RRULE:FREQ=WEEKLY;INTERVAL=2"
  | monthly => js "RRULE:FREQ=MONTHLY"
  end.

(** [process.env.TIMEZONE || 'America/New_York']. *)
Definition timezoneOf (TIMEZONE : option jsstring) : jsstring :=
  match TIMEZONE with
  | Some tz => if truthy_str tz then tz else js "America/New_York"
  | None => js "America/New_York"
  end.

(** Lines 48-79: the request built from the arguments. *)
Definition eventData (TIMEZONE : option jsstring) (a : CreateArgs)
  : EventRequest :=
  {| summary := title a;
     startDateTime := date a ++ js "T" ++ startTime a ++ js ":00";
     endDateTime := date a ++ js "T" ++ endTime a ++ js ":00";
     timeZone := timezoneOf TIMEZONE;
     recurrence :=
       match recurring a, recurrenceType a with
       | Some true, Some t => Some [recurrenceMap t]
       | _, _ => None
       end |}.

Inductive Payload :=
| Created (eventId title date time : jsstring) (recurring : bool)
          (timezone : jsstring)
| Failure.

(** [createEventTool.func]. [insert] is [calendar.events.insert]: the
    identifier of the new event, or [None] when the call (or building the
    client) throws; the failure payload carries the message of the
    exception, which the model does not track. *)
Definition func (TIMEZONE : option jsstring)
                (insert : EventRequest -> option jsstring) (a : CreateArgs)
  : Payload :=
  match insert (eventData TIMEZONE a) with
  | Some eventId =>
      Created eventId (title a) (date a)
              (startTime a ++ js " - " ++ endTime a)
              (match recurring a with Some true => true | _ => false end)
              (timezoneOf TIMEZONE)
  | None => Failure
  end.

End Calendar.

(* ===================================================================== *)
(** ** src/services/tts.js: the temporary audio files                     *)
(* ===================================================================== *)

Module Tts.

Record audio := {
  path : jsstring;
  createdAt : Z;
}.

(** The [audioFiles] map and the paths that exist on disk. *)
Record State := {
  audioFiles : JsMap audio;
  disk : list jsstring;
}.

(** [audioFiles.delete(k)]. *)
Fixpoint map_delete {V} (k : jsstring) (m : JsMap V) : JsMap V :=
  match m with
  | [] => []
  | (k', v) :: m' =>
      if str_eqb k' k then m' else (k', v) :: map_delete k m'
  end.

Definition existsSync (p : jsstring) (d : list jsstring) : bool :=
  existsb (fun q => str_eqb q p) d.

Definition removeFile (p : jsstring) (d : list jsstring) : list jsstring :=
  filter (fun q => negb (str_eqb q p)) d.

(** [getAudioPath]: [None] is [null]. *)
Definition getAudioPath (audioId : jsstring) (st : State) : option jsstring :=
  match map_get audioId (audioFiles st) with
  | Some a => if existsSync (path a) (disk st) then Some (path a) else None
  | None => None
  end.

(** [deleteAudio]. [unlinkOk p] tells whether [fs.unlinkSync(p)] succeeds;
    when it throws the error is logged and the entry is dropped all the
    same. *)
Definition deleteAudio (unlinkOk : jsstring -> bool) (audioId : jsstring)
                       (st : State) : State :=
  match map_get audioId (audioFiles st) with
  | Some a =>
      {| audioFiles := map_delete audioId (audioFiles st);
         disk :=
           if existsSync (path a) (disk st) && unlinkOk (path a)
           then removeFile (path a) (disk st)
           else disk st |}
  | None => st
  end.

Definition maxAge : Z := 10 * 60 * 1000.

(** The [for ... of audioFiles] of [cleanupOldAudio].  The loop deletes no
    entry but the one it is visiting, so it visits the entries the map held
    on entry. *)
Fixpoint cleanupLoop (unlinkOk : jsstring -> bool) (now : Z)
                     (entries : JsMap audio) (st : State) : State :=
  match entries with
  | [] => st
  | (audioId, a) :: rest =>
      cleanupLoop unlinkOk now rest
        (if maxAge <? now - createdAt a
         then deleteAudio unlinkOk audioId st
         else st)
  end.

Definition cleanupOldAudio (unlinkOk : jsstring -> bool) (now : Z)
                           (st : State) : State :=
  cleanupLoop unlinkOk now (audioFiles st) st.

End Tts.

(* ===================================================================== *)
(** ** Further vocabulary and examples                                    *)
(* ===================================================================== *)

Module Props.
Import Reminder WhatsApp Server Spec.

(** Every reminder sits under its own identifier, and no identifier occurs
    twice. *)
Definition keyed (s : Store) : Prop :=
  Forall (fun kv => id (snd kv) = fst kv) s.

Definition wellKeyed (s : Store) : Prop := NoDup (map_keys s) /\ keyed s.

(** [r'] is [r] with, possibly, [sent] switched on. *)
Definition sameButSent (r r' : reminder) : Prop :=
  id r' = id r /\ message r' = message r /\ triggerAt r' = triggerAt r
  /\ createdAt r' = createdAt r /\ (sent r = true -> sent r' = true).

(** The code units of a text that are not white space, in order. *)
Definition nonWhite (s : jsstring) : jsstring :=
  filter (fun c => negb (isWhiteSpace c)) s.

(** A history made of whole turns: a user entry, then the assistant's. *)
Definition wholeTurns (h : History) : Prop :=
  exists turns, h = List.concat (map turnEntries turns).

Definition sessionsOk (sessions : JsMap History) : Prop :=
  Forall (fun kv => wholeTurns (snd kv) /\ (List.length (snd kv) <= 20)%nat)
         sessions.

(** A call of the transport that was accepted, or rejected. *)
Definition call (to_ : jsstring) (ok : bool) (body_ : jsstring) : Outbound :=
  {| to := to_; body := body_; accepted := ok |}.

(** A text that does not begin with white space. *)
Definition headOk (s : jsstring) : Prop :=
  match s with c :: _ => isWhiteSpace c = false | [] => True end.

(** What one send adds to the log of [n] earlier calls, for the chunks it
    has to send and the result [r] it ends with: the calls carry a prefix
    of the chunks, in order, to the one recipient; the provider's answers
    are those of [transport]; the send returns when every chunk was
    accepted, and throws at the first call that was rejected. *)
Definition transcript (env : Env) (n : nat) (to_ : jsstring)
                      (chunks : list jsstring) (r : Result unit)
                      (calls : list Outbound) : Prop :=
  map body calls = firstn (List.length calls) chunks
  /\ Forall (fun c => to c = to_) calls
  /\ (forall i c, nth_error calls i = Some c ->
                  accepted c = transport env (n + i))
  /\ (r = Ok tt ->
      List.length calls = List.length chunks
      /\ Forall (fun c => accepted c = true) calls)
  /\ (r = Thrown ->
      exists delivered rejected,
        calls = delivered ++ [rejected]
        /\ Forall (fun c => accepted c = true) delivered
        /\ accepted rejected = false).

(** The store [s'] holds the reminders of [s] under the same identifiers
    in the same order, some of them switched to sent. *)
Definition evolves (s s' : Store) : Prop :=
  map_keys s' = map_keys s
  /\ forall k r, map_get k s = Some r ->
                 exists r', map_get k s' = Some r' /\ sameButSent r r'.

(** Marking every reminder of a list, first to last. *)
Definition markAll (rs : list reminder) (s : Store) : Store :=
  fold_left (fun acc r => markReminderSent (id r) acc) rs s.

(** The value of a decimal numeral read from its first digit on, on top
    of [acc]. *)
Fixpoint uintValue (acc : Z) (d : Decimal.uint) : Z :=
  match d with
  | Decimal.Nil => acc
  | Decimal.D0 l => uintValue (10 * acc + 0) l
  | Decimal.D1 l => uintValue (10 * acc + 1) l
  | Decimal.D2 l => uintValue (10 * acc + 2) l
  | Decimal.D3 l => uintValue (10 * acc + 3) l
  | Decimal.D4 l => uintValue (10 * acc + 4) l
  | Decimal.D5 l => uintValue (10 * acc + 5) l
  | Decimal.D6 l => uintValue (10 * acc + 6) l
  | Decimal.D7 l => uintValue (10 * acc + 7) l
  | Decimal.D8 l => uintValue (10 * acc + 8) l
  | Decimal.D9 l => uintValue (10 * acc + 9) l
  end.


(** An audio entry no older than the age limit at [now]. *)
Definition young (now : Z) (kv : jsstring * Tts.audio) : bool :=
  negb (Tts.maxAge <? now - Tts.createdAt (snd kv)).



Definition withReminders (w : World) (s : Store) : World :=
  {| reminders := s;
     conversationHistory := conversationHistory w;
     transportLog := transportLog w;
     agentLog := agentLog w |}.

End Props.

Module Scenarios.
Import Reminder WhatsApp Server Spec Props Examples.

(** An explicit time together with offsets. *)
Definition timeAndOffsets : Args :=
  {| arg_message := js "call mom"; delayMinutes := Some 90;
     delayHours := Some 2; delayDays := None;
     specificTime := Some (js "1970-01-01T00:00:10.000Z") |}.

(** A store with two reminders, created a millisecond apart. *)
Definition twoReminders : Store :=
  snd (func exampleHost (at_ 1700000000001) inAWhile (snd firstCreate)).

(** A body of spaces only, and a reasoning loop that always throws behind
    a transport that accepts every call. *)
Definition blankBody : TwilioBody :=
  {| Body := Some (js "   "); audioUrl := None |}.


(** A right secret in the query behind a wrong one in the header. *)
Definition wrongHeaderRightQuery : Request :=
  {| header_x_cron_secret := JsString (js "guess");
     query_secret := JsString (js "s3cret") |}.

Definition identityTime (s : option jsstring) : jsstring :=
  match s with Some t => t | None => js "Invalid Date" end.

Definition twoEvents : list Daily.DayEvent :=
  [{| Daily.title := Some (js "Standup");
      Daily.start := Some (js "2024-01-15T09:00:00-05:00");
      Daily.allDay := false |};
   {| Daily.title := Some (js "Holiday");
      Daily.start := Some (js "2024-01-15");
      Daily.allDay := true |}].

(** A voice note as the provider posts it, and a picture without text. *)
Definition rawVoiceNote : Audio.RawBody :=
  {| Audio.raw_Body := None; Audio.NumMedia := Some (js "1");
     Audio.MediaContentType0 := Some (js "audio/ogg");
     Audio.MediaUrl0 := Some (js "https://api.twilio.com/media/1") |}.

Definition rawPicture : Audio.RawBody :=
  {| Audio.raw_Body := None; Audio.NumMedia := Some (js "1");
     Audio.MediaContentType0 := Some (js "image/jpeg");
     Audio.MediaUrl0 := Some (js "https://api.twilio.com/media/2") |}.


(** Lower-casing of the letters A to Z only: enough to run the examples. *)
Definition asciiLower (s : jsstring) : jsstring :=
  map (fun c => if ((65 <=? c) && (c <=? 90))%N then (c + 32)%N else c) s.

(** A note saved with a capitalised tag, then one without tags. *)
Definition taggedNotes : Notes.Store :=
  snd (Notes.saveNote {| Notes.atId := 2000; Notes.atCreated := 2000 |}
         {| Notes.arg_content := js "eggs"; Notes.arg_tags := None |}
         (snd (Notes.saveNote {| Notes.atId := 1000; Notes.atCreated := 1000 |}
                 {| Notes.arg_content := js "milk";
                    Notes.arg_tags := Some [js "Shopping"] |} []))).

Definition byTag (q : string) (n : Z) : Notes.GetArgs :=
  {| Notes.tag := Some (js q); Notes.limit := n |}.

Definition weeklyClass : Calendar.CreateArgs :=
  {| Calendar.title := js "Bachata Class"; Calendar.date := js "2024-01-15";
     Calendar.startTime := js "19:00"; Calendar.endTime := js "21:00";
     Calendar.recurring := Some true; Calendar.recurrenceType := None |}.

Definition oneOldOneNew : Tts.State :=
  {| Tts.audioFiles :=
       [(js "a", {| Tts.path := js "/tmp/audio/a.mp3"; Tts.createdAt := 0 |});
        (js "b", {| Tts.path := js "/tmp/audio/b.mp3";
                    Tts.createdAt := 500000 |})];
     Tts.disk := [js "/tmp/audio/a.mp3"; js "/tmp/audio/b.mp3"] |}.

End Scenarios.

(* ===================================================================== *)
(** ** Facts about strings and maps                                       *)
(* ===================================================================== *)

Section StringFacts.

Lemma str_eqb_refl (s : jsstring) : str_eqb s s = true.
Proof.
  induction s as [|c s IH]; simpl; [reflexivity|].
  now rewrite N.eqb_refl, IH.
Qed.

Lemma str_eqb_eq (a b : jsstring) : str_eqb a b = true <-> a = b.
Proof.
  split.
  - revert b. induction a as [|x a IH]; intros [|y b]; simpl; try discriminate; auto.
    intros H. apply andb_true_iff in H as [Hxy Hab].
    apply N.eqb_eq in Hxy. f_equal; auto.
  - intros ->. apply str_eqb_refl.
Qed.

Lemma str_eqb_neq (a b : jsstring) : str_eqb a b = false <-> a <> b.
Proof.
  split.
  - intros H E. apply str_eqb_eq in E. congruence.
  - intros H. destruct (str_eqb a b) eqn:E; [|reflexivity].
    apply str_eqb_eq in E. contradiction.
Qed.

Lemma js_inj (s t : string) : js s = js t -> s = t.
Proof.
  unfold js. intros H.
  rewrite <- (string_of_list_ascii_of_string s), <- (string_of_list_ascii_of_string t).
  f_equal.
  revert H. generalize (list_ascii_of_string s) (list_ascii_of_string t).
  induction l as [|a l IH]; intros [|b l']; simpl; try discriminate; auto.
  intros H. injection H as Hab Hl.
  f_equal; auto.
  rewrite <- (ascii_N_embedding a), <- (ascii_N_embedding b). now rewrite Hab.
Qed.

Lemma toString_inj (m n : Z) : toString m = toString n -> m = n.
Proof.
  unfold toString. intros H. apply js_inj in H.
  assert (E : NilEmpty.int_of_string (NilEmpty.string_of_int (Z.to_int m))
            = NilEmpty.int_of_string (NilEmpty.string_of_int (Z.to_int n)))
    by now rewrite H.
  rewrite !NilEmpty.isi in E.
  injection E as E. now apply DecimalZ.to_int_inj.
Qed.

End StringFacts.

Section MapFacts.
Context {V : Type}.
Implicit Types (k : jsstring) (v : V) (m : JsMap V).

Lemma map_get_set_same k v m : map_get k (map_set k v m) = Some v.
Proof.
  induction m as [|[k' v'] m IH]; simpl.
  - now rewrite str_eqb_refl.
  - destruct (str_eqb k' k) eqn:E; simpl.
    + now rewrite str_eqb_refl.
    + now rewrite E.
Qed.

Lemma map_get_set_other k k' v m :
  k <> k' -> map_get k' (map_set k v m) = map_get k' m.
Proof.
  intros Hne. induction m as [|[k0 v0] m IH]; simpl.
  - apply str_eqb_neq in Hne. now rewrite Hne.
  - destruct (str_eqb k0 k) eqn:E; simpl.
    + apply str_eqb_eq in E. subst k0.
      apply str_eqb_neq in Hne. now rewrite Hne.
    + now rewrite IH.
Qed.

Lemma map_set_present_length k v m :
  map_get k m <> None -> List.length (map_set k v m) = List.length m.
Proof.
  induction m as [|[k0 v0] m IH]; simpl; [congruence|].
  destruct (str_eqb k0 k); simpl; auto.
Qed.

Lemma map_set_absent k v m :
  map_get k m = None -> map_set k v m = m ++ [(k, v)].
Proof.
  induction m as [|[k0 v0] m IH]; simpl; [reflexivity|].
  destruct (str_eqb k0 k); [discriminate|].
  intros H. now rewrite IH.
Qed.

Lemma map_set_keys_present k v m :
  map_get k m <> None -> map_keys (map_set k v m) = map_keys m.
Proof.
  induction m as [|[k0 v0] m IH]; simpl; [congruence|].
  destruct (str_eqb k0 k) eqn:E; simpl.
  - intros _. apply str_eqb_eq in E. now subst.
  - intros H. now rewrite IH.
Qed.

End MapFacts.

(* ===================================================================== *)
(** ** The reminder tool                                                  *)
(* ===================================================================== *)

Section ReminderFacts.
Import Reminder Spec Examples.

Lemma reminderId_collision (c1 c2 : Clock) :
  reminderId c1 = reminderId c2 <-> atId c1 = atId c2.
Proof.
  unfold reminderId. split.
  - intros H. apply app_inv_head in H. now apply toString_inj.
  - now intros ->.
Qed.

(** The store after [func] always holds, under the new identifier, the
    record built from the computed due time. *)
Lemma func_store (h : Host) (clk : Clock) (a : Args) (store : Store) :
  snd (func h clk a store)
  = map_set (reminderId clk) (created clk a (computeTriggerAt h clk a)) store.
Proof.
  unfold func. now destruct (format h (computeTriggerAt h clk a)).
Qed.

Lemma func_payload (h : Host) (clk : Clock) (a : Args) (store : Store) :
  fst (func h clk a store)
  = match computeTriggerAt h clk a with
    | Some t => Success (reminderId clk) (arg_message a) (formatDate h t)
    | None => Failure (js "Invalid time value")
    end.
Proof.
  unfold func, format. now destruct (computeTriggerAt h clk a).
Qed.


Lemma pendingOf_filter (now : Z) (store : Store) :
  pendingOf now store = filter (isDue now) (map_values store).
Proof.
  induction store as [|[k r] store IH]; simpl; [reflexivity|].
  unfold isDue at 1. rewrite IH.
  now destruct (negb (sent r) && date_le (triggerAt r) (Some now)).
Qed.

Lemma isDue_spec (now : Z) (r : reminder) :
  isDue now r = true
  <-> sent r = false /\ exists t, triggerAt r = Some t /\ t <= now.
Proof.
  unfold isDue, date_le. split.
  - intros H. apply andb_true_iff in H as [Hs Hd].
    apply negb_true_iff in Hs. split; [assumption|].
    destruct (triggerAt r) as [t|]; [|discriminate].
    exists t. split; [reflexivity|]. now apply Z.leb_le.
  - intros [Hs [t [Ht Hle]]]. rewrite Hs, Ht. simpl. now apply Z.leb_le.
Qed.

(** C4: the scan returns exactly the unsent reminders whose due time is a
    valid date not after [now], in the order of the store; so it returns no
    reminder already sent and none due strictly later. *)
Theorem C4_getPendingReminders_exact :
  forall (now : Z) (store : Store),
    getPendingReminders now store = filter (isDue now) (map_values store)
    /\ (forall r, In r (getPendingReminders now store)
                  <-> In r (map_values store) /\ sent r = false
                      /\ exists t, triggerAt r = Some t /\ t <= now)
    /\ (forall r, In r (getPendingReminders now store) -> sent r <> true)
    /\ (forall r t, In r (getPendingReminders now store)
                    -> triggerAt r = Some t -> ~ now < t).
Proof.
  intros now store.
  assert (E : getPendingReminders now store
              = filter (isDue now) (map_values store))
    by apply pendingOf_filter.
  assert (I : forall r, In r (getPendingReminders now store)
                        <-> In r (map_values store) /\ sent r = false
                            /\ exists t, triggerAt r = Some t /\ t <= now).
  { intros r. rewrite E, filter_In, isDue_spec. reflexivity. }
  split; [exact E|]. split; [exact I|]. split.
  - intros r Hr. apply I in Hr as [_ [Hs _]]. congruence.
  - intros r t Hr Ht. apply I in Hr as [_ [_ [t' [Ht' Hle]]]].
    rewrite Ht in Ht'. injection Ht' as ->. lia.
Qed.

(** C1 fails on the code: a call with no timing at all is accepted, and the
    reminder is stored, due at once. *)
Lemma C1_no_timing_is_accepted :
  func exampleHost (at_ 1700000000000) (noTiming "call mom") []
  = (Success (js "rem_1700000000000") (js "call mom") (js "1700000000000"),
     [(js "rem_1700000000000",
       {| id := js "rem_1700000000000"; message := js "call mom";
          triggerAt := Some 1700000000000; createdAt := 1700000000000;
          sent := false |})]).
Proof. vm_compute. reflexivity. Qed.

(** C1, amended: with no explicit time (absent or empty) and no offset that
    is not zero, the call succeeds: it returns the success payload and
    stores an unsent reminder whose due time is the current time. *)
Theorem C1_no_timing_due_now :
  forall (h : Host) (clk : Clock) (a : Args) (store : Store),
    explicitTime a = None ->
    truthy_num (delayMinutes a) = false ->
    truthy_num (delayHours a) = false ->
    truthy_num (delayDays a) = false ->
    func h clk a store
    = (Success (reminderId clk) (arg_message a) (formatDate h (atTrigger clk)),
       map_set (reminderId clk) (created clk a (Some (atTrigger clk))) store).
Proof.
  intros h clk a store He Hm Hh Hd.
  assert (T : computeTriggerAt h clk a = Some (atTrigger clk)).
  { unfold computeTriggerAt, offsetFromNow. now rewrite He, Hm, Hh, Hd. }
  rewrite (surjective_pairing (func h clk a store)).
  now rewrite func_payload, func_store, T.
Qed.

Lemma C1_no_timing_due_now_witness :
  explicitTime (noTiming "call mom") = None
  /\ truthy_num (delayMinutes (noTiming "call mom")) = false
  /\ truthy_num (delayHours (noTiming "call mom")) = false
  /\ truthy_num (delayDays (noTiming "call mom")) = false
  /\ func exampleHost (at_ 1700000000000) (noTiming "call mom") []
     = (Success (reminderId (at_ 1700000000000)) (js "call mom")
          (toString 1700000000000),
        [(reminderId (at_ 1700000000000),
          created (at_ 1700000000000) (noTiming "call mom")
            (Some 1700000000000))]).
Proof.
  repeat (split; [reflexivity|]).
  apply (C1_no_timing_due_now exampleHost (at_ 1700000000000)
           (noTiming "call mom") []); reflexivity.
Defined.

(** C2 fails on the code: two calls in the same millisecond both succeed
    and return the same identifier, and the second reminder replaces the
    first in the store. *)
Theorem C2_same_millisecond_overwrites :
  fst firstCreate
  = Success (js "rem_1700000000000") (js "call mom") (js "1700000000000")
  /\ fst secondCreate
     = Success (js "rem_1700000000000") (js "buy milk") (js "1700000000000")
  /\ map_get (js "rem_1700000000000") (snd firstCreate)
     = Some {| id := js "rem_1700000000000"; message := js "call mom";
               triggerAt := Some 1700000000000; createdAt := 1700000000000;
               sent := false |}
  /\ snd secondCreate
     = [(js "rem_1700000000000",
         {| id := js "rem_1700000000000"; message := js "buy milk";
            triggerAt := Some 1700000000000; createdAt := 1700000000000;
            sent := false |})].
Proof. vm_compute. repeat split; reflexivity. Qed.

(** The collision in general: a second call whose [Date.now()] equals that
    of an earlier one returns the same identifier and leaves the number of
    stored reminders unchanged. *)
Lemma same_millisecond_replaces (h : Host) (c1 c2 : Clock) (a1 a2 : Args)
                                (store : Store) :
  atId c1 = atId c2 ->
  reminderId c2 = reminderId c1
  /\ List.length (snd (func h c2 a2 (snd (func h c1 a1 store))))
     = List.length (snd (func h c1 a1 store))
  /\ map_get (reminderId c1) (snd (func h c2 a2 (snd (func h c1 a1 store))))
     = Some (created c2 a2 (computeTriggerAt h c2 a2)).
Proof.
  intros E. assert (R : reminderId c2 = reminderId c1)
    by (apply reminderId_collision; congruence).
  split; [exact R|]. rewrite (func_store h c2), R. split.
  - apply map_set_present_length. rewrite func_store, map_get_set_same.
    discriminate.
  - apply map_get_set_same.
Qed.



(** C9 fails on the code at the empty string: it does not parse, but
    [if (specificTime)] treats it as absent and the call succeeds. *)
Lemma C9_empty_time_is_accepted :
  parseDate exampleHost [] = None
  /\ func exampleHost (at_ 1700000000000) emptyTime []
     = (Success (js "rem_1700000000000") (js "call mom") (js "1700000000000"),
        [(js "rem_1700000000000",
          {| id := js "rem_1700000000000"; message := js "call mom";
             triggerAt := Some 1700000000000; createdAt := 1700000000000;
             sent := false |})]).
Proof. vm_compute. split; reflexivity. Qed.

(** C9, amended: when the explicit time is a non-empty string that does not
    parse, the call returns the failure payload, yet the store holds under
    the new identifier a reminder with the invalid due time, which no scan
    returns at any time. *)
Theorem C9_unparsed_time_is_stored :
  forall (h : Host) (clk : Clock) (a : Args) (store : Store) (s : jsstring),
    explicitTime a = Some s ->
    parseDate h s = None ->
    fst (func h clk a store) = Failure (js "Invalid time value")
    /\ map_get (reminderId clk) (snd (func h clk a store))
       = Some (created clk a None)
    /\ (forall now,
          ~ In (created clk a None)
               (getPendingReminders now (snd (func h clk a store))))
    /\ (forall now r,
          In r (getPendingReminders now (snd (func h clk a store))) ->
          triggerAt r <> None).
Proof.
  intros h clk a store s He Hp.
  assert (T : computeTriggerAt h clk a = None)
    by (unfold computeTriggerAt; now rewrite He).
  assert (P : forall now st r, In r (getPendingReminders now st) ->
                               triggerAt r <> None).
  { intros now st r Hr. unfold getPendingReminders in Hr.
    rewrite pendingOf_filter in Hr. apply filter_In in Hr as [_ Hd].
    apply isDue_spec in Hd as [_ [t [Ht _]]]. congruence. }
  split; [now rewrite func_payload, T|].
  split; [now rewrite func_store, T, map_get_set_same|].
  split.
  - intros now Hin. now apply P in Hin.
  - intros now r. apply P.
Qed.

Lemma C9_unparsed_time_is_stored_witness :
  explicitTime badTime = Some (js "tomorrow-ish")
  /\ parseDate exampleHost (js "tomorrow-ish") = None
  /\ fst (func exampleHost (at_ 1700000000000) badTime [])
     = Failure (js "Invalid time value")
  /\ map_get (reminderId (at_ 1700000000000))
       (snd (func exampleHost (at_ 1700000000000) badTime []))
     = Some (created (at_ 1700000000000) badTime None).
Proof.
  split; [reflexivity|]. split; [reflexivity|].
  destruct (C9_unparsed_time_is_stored exampleHost (at_ 1700000000000)
              badTime [] (js "tomorrow-ish") eq_refl eq_refl)
    as [Hf [Hg _]].
  split; [exact Hf | exact Hg].
Defined.

End ReminderFacts.

(* ===================================================================== *)
(** ** Chunking                                                           *)
(* ===================================================================== *)

Section ChunkFacts.
Import WhatsApp Spec.

Lemma trimStart_length (s : jsstring) :
  (List.length (trimStart s) <= List.length s)%nat.
Proof.
  induction s as [|c s IH]; simpl; [lia|].
  destruct (isWhiteSpace c); simpl; lia.
Qed.

Lemma trimEnd_length (s : jsstring) :
  (List.length (trimEnd s) <= List.length s)%nat.
Proof.
  unfold trimEnd. rewrite length_rev.
  rewrite <- (length_rev s). apply trimStart_length.
Qed.

Lemma trim_length (s : jsstring) :
  (List.length (trim s) <= List.length s)%nat.
Proof.
  unfold trim.
  pose proof (trimEnd_length (trimStart s)).
  pose proof (trimStart_length s). lia.
Qed.

Lemma trim_leading_space (s : jsstring) :
  (List.length (trim (SPACE :: s)) <= List.length s)%nat.
Proof.
  unfold trim. simpl.
  pose proof (trimEnd_length (trimStart s)).
  pose proof (trimStart_length s). lia.
Qed.

Lemma trimStart_noWhiteSpace (s : jsstring) :
  noWhiteSpace s -> trimStart s = s.
Proof.
  intros H. destruct H as [|c s Hc _]; simpl; [reflexivity|].
  now rewrite Hc.
Qed.

Lemma trim_noWhiteSpace (s : jsstring) : noWhiteSpace s -> trim s = s.
Proof.
  intros H. unfold trim, trimEnd. rewrite (trimStart_noWhiteSpace s H).
  rewrite trimStart_noWhiteSpace.
  - apply rev_involutive.
  - unfold noWhiteSpace in *. rewrite Forall_forall in *.
    intros c Hc. apply H. now apply in_rev.
Qed.

(** What [lastIndexOf] returns: [-1], or an index within the string, not
    after the start position, that holds the character. *)
Lemma lastIndexFrom_spec (c : code_unit) (s : jsstring) (k : nat) :
  lastIndexFrom c s k = -1
  \/ (0 <= lastIndexFrom c s k <= Z.of_nat k
      /\ nth_error s (Z.to_nat (lastIndexFrom c s k)) = Some c).
Proof.
  induction k as [|k IH]; cbn [lastIndexFrom].
  - destruct (nth_error s 0) as [d|] eqn:E; [|now left].
    destruct (N.eqb_spec d c); [|now left].
    right. subst. split; [lia|exact E].
  - destruct (nth_error s (S k)) as [d|] eqn:E.
    + destruct (N.eqb_spec d c).
      * right. subst. split; [lia|]. now rewrite Nat2Z.id.
      * destruct IH as [IH|[IH1 IH2]]; [now left|right]. split; [lia|exact IH2].
    + destruct IH as [IH|[IH1 IH2]]; [now left|right]. split; [lia|exact IH2].
Qed.

Lemma lastIndexOf_spec (c : code_unit) (s : jsstring) (position : Z) :
  lastIndexOf c s position = -1
  \/ (0 <= lastIndexOf c s position <= Z.max position 0
      /\ nth_error s (Z.to_nat (lastIndexOf c s position)) = Some c).
Proof.
  unfold lastIndexOf.
  set (k := Z.to_nat (Z.min (Z.max position 0) (len s - 1))).
  assert (Hk : Z.of_nat k <= Z.max position 0) by (subst k; lia).
  destruct (lastIndexFrom_spec c s k) as [H|[H1 H2]]; [now left|right].
  split; [|exact H2].
  revert H1. generalize (lastIndexFrom c s k). intros r Hr. lia.
Qed.

Lemma lastIndexFrom_absent (c : code_unit) (s : jsstring) (k : nat) :
  ~ In c s -> lastIndexFrom c s k = -1.
Proof.
  intros H. induction k as [|k IH]; cbn [lastIndexFrom].
  - destruct (nth_error s 0) as [d|] eqn:E; [|reflexivity].
    destruct (N.eqb_spec d c); [|reflexivity].
    subst. exfalso. apply H. eapply nth_error_In; eauto.
  - destruct (nth_error s (S k)) as [d|] eqn:E; [|exact IH].
    destruct (N.eqb_spec d c); [|exact IH].
    subst. exfalso. apply H. eapply nth_error_In; eauto.
Qed.

Lemma substring_prefix (s : jsstring) (n : Z) :
  0 <= n -> substring s 0 n = firstn (Z.to_nat n) s.
Proof.
  intros Hn. unfold substring, clamp, len.
  set (L := Z.of_nat (List.length s)).
  assert (HL : 0 <= L) by (unfold L; lia).
  replace (Z.min (Z.max 0 0) L) with 0 by lia.
  replace (Z.min 0 (Z.min (Z.max n 0) L)) with 0 by lia.
  replace (Z.max 0 (Z.min (Z.max n 0) L) - 0) with (Z.min n L) by lia.
  change (skipn (Z.to_nat 0) s) with s.
  destruct (Z.le_gt_cases n L).
  - now replace (Z.min n L) with n by lia.
  - replace (Z.min n L) with L by lia. unfold L. rewrite Nat2Z.id, firstn_all.
    symmetry. apply firstn_all2. unfold L in *. lia.
Qed.

Lemma substringFrom_suffix (s : jsstring) (n : Z) :
  0 <= n -> substringFrom s n = skipn (Z.to_nat n) s.
Proof.
  intros Hn. unfold substringFrom, substring, clamp, len.
  set (L := Z.of_nat (List.length s)).
  assert (HL : 0 <= L) by (unfold L; lia).
  replace (Z.min (Z.max L 0) L) with L by lia.
  destruct (Z.le_gt_cases n L).
  - replace (Z.min (Z.max n 0) L) with n by lia.
    replace (Z.min n L) with n by lia.
    replace (Z.max n L) with L by lia.
    apply firstn_all2. rewrite length_skipn. unfold L in *. lia.
  - replace (Z.min (Z.max n 0) L) with L by lia.
    rewrite Z.min_id, Z.max_id, Z.sub_diag.
    change (Z.to_nat 0) with 0%nat. rewrite firstn_O.
    symmetry. apply skipn_all2. unfold L in *. lia.
Qed.

(** The break point of an iteration that splits: it lies in
    [0, maxLength], and it is [0] only on a leading space. *)
Lemma findBreakPoint_spec (remaining : jsstring) (maxLength : Z) :
  1 <= maxLength ->
  0 <= findBreakPoint remaining maxLength <= maxLength
  /\ (findBreakPoint remaining maxLength = 0 ->
      exists rest, remaining = SPACE :: rest).
Proof.
  intros Hm. unfold findBreakPoint.
  pose proof (lastIndexOf_spec LF remaining maxLength) as Hl.
  pose proof (lastIndexOf_spec SPACE remaining maxLength) as Hs.
  revert Hl Hs.
  generalize (lastIndexOf LF remaining maxLength) as nl.
  generalize (lastIndexOf SPACE remaining maxLength) as sp.
  intros sp nl Hl Hs.
  assert (Hsp : sp = 0 -> exists rest, remaining = SPACE :: rest).
  { intros ->. destruct Hs as [Hs|[_ Hs]]; [discriminate|].
    destruct remaining as [|d rest]; [discriminate|].
    injection Hs as ->. now exists rest. }
  destruct (Z.eqb_spec nl (-1)); cbn [orb].
  - destruct (Z.eqb_spec sp (-1)); [split; lia|].
    split; [lia|exact Hsp].
  - destruct (Z.ltb_spec (2 * nl) maxLength); cbn [orb].
    + destruct (Z.eqb_spec sp (-1)); [split; lia|].
      split; [lia|exact Hsp].
    + destruct (Z.eqb_spec nl (-1)); [contradiction|].
      split; lia.
Qed.

Lemma splitLoop_step (fuel : nat) (maxLength : Z) (remaining : jsstring)
                     (chunks : list jsstring) :
  splitLoop (S fuel) maxLength remaining chunks
  = if 0 <? len remaining then
      if len remaining <=? maxLength then Some (chunks ++ [remaining])
      else
        splitLoop fuel maxLength
          (trim (substringFrom remaining (findBreakPoint remaining maxLength)))
          (chunks ++ [substring remaining 0 (findBreakPoint remaining maxLength)])
    else Some chunks.
Proof. reflexivity. Qed.

(** An iteration that splits leaves a strictly shorter remainder. *)
Lemma remainder_shrinks (remaining : jsstring) (maxLength : Z) :
  1 <= maxLength ->
  maxLength < len remaining ->
  (List.length (trim (substringFrom remaining
                        (findBreakPoint remaining maxLength)))
   < List.length remaining)%nat.
Proof.
  intros Hm Hlen.
  destruct (findBreakPoint_spec remaining maxLength Hm) as [Hb Hz].
  rewrite substringFrom_suffix by lia.
  destruct (Z.eq_dec (findBreakPoint remaining maxLength) 0) as [E|E].
  - rewrite E. destruct (Hz E) as [rest ->].
    change (skipn (Z.to_nat 0) (SPACE :: rest)) with (SPACE :: rest).
    pose proof (trim_leading_space rest). simpl. lia.
  - pose proof (trim_length
                  (skipn (Z.to_nat (findBreakPoint remaining maxLength))
                     remaining)) as Ht.
    rewrite length_skipn in Ht. unfold len in Hlen. lia.
Qed.

(** The loop returns whenever the fuel exceeds the length of what remains,
    and what it adds to [chunks] respects the bound. *)
Lemma splitLoop_returns (maxLength : Z) :
  1 <= maxLength ->
  forall (fuel : nat) (remaining : jsstring) (chunks : list jsstring),
    (List.length remaining < fuel)%nat ->
    exists more,
      splitLoop fuel maxLength remaining chunks = Some (chunks ++ more)
      /\ Forall (fun c => len c <= maxLength) more.
Proof.
  intros Hm. induction fuel as [|fuel IH]; intros remaining chunks Hf; [lia|].
  rewrite splitLoop_step.
  destruct (Z.ltb_spec 0 (len remaining)) as [Hpos|Hpos].
  - destruct (Z.leb_spec (len remaining) maxLength) as [Hle|Hgt].
    + exists [remaining]. split; [reflexivity|]. now constructor.
    + pose proof (remainder_shrinks remaining maxLength Hm Hgt) as Hs.
      destruct (IH (trim (substringFrom remaining
                            (findBreakPoint remaining maxLength)))
                   (chunks ++ [substring remaining 0
                                 (findBreakPoint remaining maxLength)]))
        as [more [E F]]; [lia|].
      exists (substring remaining 0 (findBreakPoint remaining maxLength)
              :: more).
      split.
      * rewrite E, <- app_assoc. reflexivity.
      * constructor; [|exact F].
        destruct (findBreakPoint_spec remaining maxLength Hm) as [Hb _].
        rewrite substring_prefix by lia. unfold len.
        pose proof (firstn_le_length
                      (Z.to_nat (findBreakPoint remaining maxLength))
                      remaining).
        rewrite length_firstn. lia.
  - exists []. split; [now rewrite app_nil_r|constructor].
Qed.

(** More fuel does not change a result. *)
Lemma splitLoop_more_fuel (maxLength : Z) (fuel fuel' : nat) :
  (fuel <= fuel')%nat ->
  forall (remaining : jsstring) (chunks result : list jsstring),
    splitLoop fuel maxLength remaining chunks = Some result ->
    splitLoop fuel' maxLength remaining chunks = Some result.
Proof.
  revert fuel'. induction fuel as [|fuel IH]; intros fuel' Hle remaining chunks
    result H; [discriminate|].
  destruct fuel' as [|fuel']; [lia|].
  rewrite splitLoop_step in *.
  destruct (0 <? len remaining); [|exact H].
  destruct (len remaining <=? maxLength); [exact H|].
  apply IH; [lia|exact H].
Qed.

(** [splitMessage] returns for every bound of at least one code unit. *)
Lemma splitMessage_returns (message : jsstring) (maxLength : Z) :
  1 <= maxLength ->
  exists chunks,
    splitMessage message maxLength = Some chunks
    /\ Forall (fun c => len c <= maxLength) chunks.
Proof.
  intros Hm. unfold splitMessage.
  destruct (Z.leb_spec (len message) maxLength) as [Hle|Hgt].
  - exists [message]. split; [reflexivity|]. now constructor.
  - destruct (splitLoop_returns maxLength Hm (S (List.length message))
                message []) as [more [E F]]; [lia|].
    exists more. split; assumption.
Qed.

Lemma noWhiteSpace_not_in (s : jsstring) (c : code_unit) :
  noWhiteSpace s -> isWhiteSpace c = true -> ~ In c s.
Proof.
  unfold noWhiteSpace. rewrite Forall_forall.
  intros H Hc Hin. apply H in Hin. congruence.
Qed.

Lemma findBreakPoint_noWhiteSpace (s : jsstring) (maxLength : Z) :
  noWhiteSpace s -> findBreakPoint s maxLength = maxLength.
Proof.
  intros H. unfold findBreakPoint, lastIndexOf.
  rewrite (lastIndexFrom_absent LF)
    by (apply noWhiteSpace_not_in; [assumption|reflexivity]).
  rewrite (lastIndexFrom_absent SPACE)
    by (apply noWhiteSpace_not_in; [assumption|reflexivity]).
  reflexivity.
Qed.

(** A text without white space, longer than the bound and at most twice as
    long, is cut once, at the bound. *)
Lemma splitMessage_hard_cut (s : jsstring) (maxLength : Z) :
  1 <= maxLength ->
  maxLength < len s <= 2 * maxLength ->
  noWhiteSpace s ->
  splitMessage s maxLength
  = Some [firstn (Z.to_nat maxLength) s; skipn (Z.to_nat maxLength) s].
Proof.
  intros Hm [Hlo Hhi] Hws. unfold splitMessage.
  destruct (Z.leb_spec (len s) maxLength) as [Hle|_]; [lia|].
  assert (Hl : (2 <= List.length s)%nat) by (unfold len in *; lia).
  destruct (List.length s) as [|[|n]] eqn:El; [lia|lia|].
  rewrite splitLoop_step.
  destruct (Z.ltb_spec 0 (len s)) as [_|Hc]; [|lia].
  destruct (Z.leb_spec (len s) maxLength) as [Hle|_]; [lia|].
  rewrite findBreakPoint_noWhiteSpace by assumption.
  rewrite substring_prefix, substringFrom_suffix by lia.
  assert (Hsk : noWhiteSpace (skipn (Z.to_nat maxLength) s)).
  { unfold noWhiteSpace in *. rewrite Forall_forall in *.
    intros c Hc. apply Hws.
    rewrite <- (firstn_skipn (Z.to_nat maxLength) s).
    apply in_or_app. now right. }
  rewrite (trim_noWhiteSpace _ Hsk), splitLoop_step.
  assert (Hlen : len (skipn (Z.to_nat maxLength) s) = len s - maxLength).
  { unfold len in *. rewrite length_skipn. lia. }
  destruct (Z.ltb_spec 0 (len (skipn (Z.to_nat maxLength) s))); [|lia].
  destruct (Z.leb_spec (len (skipn (Z.to_nat maxLength) s)) maxLength); [|lia].
  reflexivity.
Qed.

(** C6: for a bound of at least one code unit [splitMessage] returns, and
    every chunk has at most [maxLength] code units; a text no longer than
    the bound comes back as the single chunk; a text of 3000 code units
    without white space, at bound 1500, comes back as exactly two chunks
    whose concatenation is the text. *)
Theorem C6_splitMessage_chunks :
  forall (text : jsstring) (maxLength : Z),
    1 <= maxLength ->
    exists chunks,
      splitMessage text maxLength = Some chunks
      /\ Forall (fun c => len c <= maxLength) chunks
      /\ (len text <= maxLength -> chunks = [text])
      /\ (maxLength = 1500 -> len text = 3000 -> noWhiteSpace text ->
          exists c1 c2, chunks = [c1; c2] /\ c1 ++ c2 = text
                        /\ len c1 = 1500 /\ len c2 = 1500).
Proof.
  intros text maxLength Hm.
  destruct (splitMessage_returns text maxLength Hm) as [chunks [E F]].
  exists chunks. split; [exact E|]. split; [exact F|]. split.
  - intros Hle. unfold splitMessage in E.
    destruct (Z.leb_spec (len text) maxLength); [|lia].
    now injection E as <-.
  - intros -> Hlen Hws.
    rewrite (splitMessage_hard_cut text 1500) in E by (try assumption; lia).
    injection E as <-.
    exists (firstn (Z.to_nat 1500) text), (skipn (Z.to_nat 1500) text).
    split; [reflexivity|]. split; [apply firstn_skipn|].
    unfold len in *. rewrite length_firstn, length_skipn. lia.
Qed.

Lemma C6_splitMessage_chunks_witness :
  1 <= 1500
  /\ exists chunks,
      splitMessage (repeat 97%N 3000) 1500 = Some chunks
      /\ Forall (fun c => len c <= 1500) chunks
      /\ exists c1 c2, chunks = [c1; c2] /\ c1 ++ c2 = repeat 97%N 3000
                       /\ len c1 = 1500 /\ len c2 = 1500.
Proof.
  split; [lia|].
  destruct (C6_splitMessage_chunks (repeat 97%N 3000) 1500 ltac:(lia))
    as [chunks [E [F [_ H]]]].
  exists chunks. split; [exact E|]. split; [exact F|].
  apply H.
  - reflexivity.
  - unfold len. now rewrite repeat_length.
  - apply Forall_forall. intros c Hc. apply repeat_spec in Hc. now subst.
Defined.

End ChunkFacts.

(* ===================================================================== *)
(** ** Session history and the inbound dispatcher                         *)
(* ===================================================================== *)

Section DispatcherFacts.
Import WhatsApp Spec Examples.

Lemma lastN_length {A} (n : nat) (l : list A) :
  List.length (lastN n l) = Nat.min n (List.length l).
Proof. unfold lastN. rewrite length_skipn. lia. Qed.

Lemma lastN_short {A} (n : nat) (l : list A) :
  (List.length l <= n)%nat -> lastN n l = l.
Proof.
  intros H. unfold lastN.
  now replace (List.length l - n)%nat with 0%nat by lia.
Qed.

(** Trimming, appending and trimming again is trimming once at the end. *)
Lemma lastN_app_lastN {A} (n : nat) (l x : list A) :
  lastN n (lastN n l ++ x) = lastN n (l ++ x).
Proof.
  unfold lastN at 1 3.
  rewrite !length_app, lastN_length.
  unfold lastN. set (k := (List.length l - n)%nat).
  assert (E : skipn k l ++ x = skipn k (l ++ x)).
  { rewrite skipn_app.
    replace (k - List.length l)%nat with 0%nat by lia. reflexivity. }
  rewrite E, skipn_skipn. f_equal. lia.
Qed.

Lemma appendTurn_lastN (h : History) (u a : jsstring) :
  appendTurn h u a = lastN 20 (h ++ turnEntries (u, a)).
Proof.
  unfold appendTurn, turnEntries. simpl fst. simpl snd.
  set (h' := h ++ _).
  destruct (Nat.ltb_spec 20 (List.length h')).
  - reflexivity.
  - symmetry. now apply lastN_short.
Qed.

Lemma playTurns_lastN (turns : list (jsstring * jsstring)) :
  forall h : History,
    (List.length h <= 20)%nat ->
    playTurns h turns = lastN 20 (h ++ List.concat (map turnEntries turns)).
Proof.
  induction turns as [|[u a] turns IH]; intros h Hh; simpl.
  - rewrite app_nil_r. symmetry. now apply lastN_short.
  - unfold playTurns in *. simpl fold_left.
    rewrite IH.
    + rewrite appendTurn_lastN, lastN_app_lastN, <- app_assoc. reflexivity.
    + rewrite appendTurn_lastN, lastN_length. lia.
Qed.

Lemma concat_turnEntries_length (turns : list (jsstring * jsstring)) :
  List.length (List.concat (map turnEntries turns)) = (2 * List.length turns)%nat.
Proof.
  induction turns as [|t turns IH]; simpl; [reflexivity|]. lia.
Qed.

(** The sends only extend the transport log. *)
Lemma messages_create_eq (env : Env) (to_ body_ : jsstring) (w : World) :
  messages_create env to_ body_ w
  = (if transport env (List.length (transportLog w)) then Ok tt else Thrown,
     logged w [{| to := to_; body := body_;
                  accepted := transport env (List.length (transportLog w)) |}]).
Proof.
  unfold messages_create, logged.
  now destruct (transport env (List.length (transportLog w))).
Qed.

Lemma logged_nil (w : World) : logged w [] = w.
Proof. destruct w. unfold logged. simpl. now rewrite app_nil_r. Qed.

Lemma logged_logged (w : World) (o o' : list Outbound) :
  logged (logged w o) o' = logged w (o ++ o').
Proof. unfold logged. simpl. now rewrite app_assoc. Qed.

Lemma logged_length (w : World) (o : list Outbound) :
  List.length (transportLog (logged w o))
  = (List.length (transportLog w) + List.length o)%nat.
Proof. unfold logged. simpl. apply length_app. Qed.



(** The gateway never takes its [None] branch. *)
Lemma sendWhatsAppMessage_chunks (env : Env) (to_ message : jsstring) :
  exists chunks,
    splitMessage message 1500 = Some chunks
    /\ sendWhatsAppMessage env to_ message = sendChunks env to_ chunks.
Proof.
  destruct (splitMessage_returns message 1500) as [chunks [E _]]; [lia|].
  exists chunks. split; [exact E|].
  unfold sendWhatsAppMessage. now rewrite E.
Qed.

(** A message within the limit is one call of the transport. *)
Lemma sendWhatsAppMessage_short (env : Env) (to_ message : jsstring)
                                (w : World) :
  len message <= 1500 ->
  sendWhatsAppMessage env to_ message w = messages_create env to_ message w.
Proof.
  intros H. unfold sendWhatsAppMessage, splitMessage.
  destruct (Z.leb_spec (len message) 1500); [|lia].
  simpl. unfold bind.
  destruct (messages_create env to_ message w) as [[[]|] w']; reflexivity.
Qed.

Lemma resolveContent_resolved (env : Env) (from : jsstring) (b : TwilioBody)
                              (w : World) (text : jsstring) :
  resolvedText env b = Some text ->
  resolveContent env from b w = (Ok (Some text), w).
Proof.
  unfold resolvedText, resolveContent.
  destruct (audioUrl b) as [url|].
  - intros ->. reflexivity.
  - now intros [= <-].
Qed.



Lemma transcriptionApology_short : len transcriptionApology <= 1500.
Proof. vm_compute. discriminate. Qed.

Lemma genericApology_short : len genericApology <= 1500.
Proof. vm_compute. discriminate. Qed.

(** C7 fails on the code when the transport rejects the apology: the outer
    [catch] then sends the generic apology as well, so two sends are made
    and none is accepted; the handler ends by throwing. *)
Lemma C7_rejected_apology_is_followed_by_another :
  transcribeAudio deadEnv (js "https://api.twilio.com/media/1") = None
  /\ handleIncomingMessage deadEnv sender voiceNote emptyWorld
     = (Thrown,
        {| reminders := []; conversationHistory := [];
           transportLog :=
             [{| to := sender; body := transcriptionApology; accepted := false |};
              {| to := sender; body := genericApology; accepted := false |}];
           agentLog := [] |}).
Proof. vm_compute. split; reflexivity. Qed.

(** C7, amended: when the transcription of an audio event fails, the
    session history, the reminders and the calls to the reasoning loop are
    left as they were, and the first send is the transcription apology; if
    the transport accepts it, it is the only send and the handler returns;
    if the transport rejects it, one send of the generic apology follows. *)
Theorem C7_failed_transcription :
  forall (env : Env) (from : jsstring) (b : TwilioBody) (w : World)
         (url : jsstring),
    audioUrl b = Some url ->
    transcribeAudio env url = None ->
    conversationHistory (snd (handleIncomingMessage env from b w))
    = conversationHistory w
    /\ agentLog (snd (handleIncomingMessage env from b w)) = agentLog w
    /\ reminders (snd (handleIncomingMessage env from b w)) = reminders w
    /\ (transport env (List.length (transportLog w)) = true ->
        handleIncomingMessage env from b w
        = (Ok tt,
           logged w [{| to := from; body := transcriptionApology;
                        accepted := true |}]))
    /\ (transport env (List.length (transportLog w)) = false ->
        handleIncomingMessage env from b w
        = (if transport env (S (List.length (transportLog w)))
           then Ok tt else Thrown,
           logged w [{| to := from; body := transcriptionApology;
                        accepted := false |};
                     {| to := from; body := genericApology;
                        accepted :=
                          transport env (S (List.length (transportLog w))) |}])).
Proof.
  intros env from b w url Haudio Hfail.
  assert (E : handleIncomingMessage env from b w
              = if transport env (List.length (transportLog w))
                then (Ok tt,
                      logged w [{| to := from; body := transcriptionApology;
                                   accepted := true |}])
                else (if transport env (S (List.length (transportLog w)))
                      then Ok tt else Thrown,
                      logged w [{| to := from; body := transcriptionApology;
                                   accepted := false |};
                                {| to := from; body := genericApology;
                                   accepted :=
                                     transport env
                                       (S (List.length (transportLog w))) |}])).
  { unfold handleIncomingMessage, try_catch, bind, resolveContent.
    rewrite Haudio, Hfail. unfold bind.
    rewrite (sendWhatsAppMessage_short env from transcriptionApology w
               transcriptionApology_short), messages_create_eq.
    destruct (transport env (List.length (transportLog w))); [reflexivity|].
    rewrite (sendWhatsAppMessage_short env from genericApology _
               genericApology_short), messages_create_eq.
    rewrite logged_logged, logged_length. cbn [List.length app].
    rewrite Nat.add_1_r. reflexivity. }
  rewrite E.
  destruct (transport env (List.length (transportLog w)));
    repeat split; try reflexivity; intros; try discriminate; reflexivity.
Qed.

Lemma C7_failed_transcription_witness :
  audioUrl voiceNote = Some (js "https://api.twilio.com/media/1")
  /\ transcribeAudio echoEnv (js "https://api.twilio.com/media/1") = None
  /\ handleIncomingMessage echoEnv sender voiceNote emptyWorld
     = (Ok tt,
        {| reminders := []; conversationHistory := [];
           transportLog :=
             [{| to := sender; body := transcriptionApology; accepted := true |}];
           agentLog := [] |}).
Proof.
  split; [reflexivity|]. split; [reflexivity|].
  destruct (C7_failed_transcription echoEnv sender voiceNote emptyWorld
              (js "https://api.twilio.com/media/1") eq_refl eq_refl)
    as [_ [_ [_ [Haccepted _]]]].
  apply Haccepted. reflexivity.
Defined.

End DispatcherFacts.

(* ===================================================================== *)
(** ** The guard of the cron routes                                       *)
(* ===================================================================== *)

Section GuardFacts.
Import WhatsApp Server Spec Examples.

Lemma strict_eq_spec (a b : JsValue) :
  strict_eq a b = true <-> a = b /\ a <> JsObject.
Proof.
  destruct a as [|s|], b as [|t|]; simpl; split;
    try discriminate; try (intros [H1 H2]; congruence);
    try (intros _; split; [reflexivity|discriminate]).
  - intros H. apply str_eqb_eq in H. subst. split; [reflexivity|discriminate].
  - intros [[= ->] _]. apply str_eqb_refl.
Qed.

Lemma validateCronSecret_cases (CRON_SECRET : JsValue) (req : Request) :
  validateCronSecret CRON_SECRET req
  = if strict_eq (suppliedSecret req) CRON_SECRET then Next
    else Respond {| status := 401; json := ErrorBody (js "Unauthorized") |}.
Proof.
  unfold validateCronSecret.
  now destruct (strict_eq (suppliedSecret req) CRON_SECRET).
Qed.

(** C8: when the supplied secret (the header, or the query parameter when
    the header is absent or empty) is not strictly equal to the configured
    one, the guard answers 401 with the JSON body [{error: 'Unauthorized'}],
    whatever the guarded handler is, and the process state is unchanged. *)
Theorem C8_wrong_secret_is_401 :
  forall (CRON_SECRET : JsValue) (req : Request)
         (handler : Request -> M Response) (w : World),
    strict_eq (suppliedSecret req) CRON_SECRET = false ->
    validateCronSecret CRON_SECRET req
    = Respond {| status := 401; json := ErrorBody (js "Unauthorized") |}
    /\ guarded CRON_SECRET handler req w
       = (Ok {| status := 401; json := ErrorBody (js "Unauthorized") |}, w).
Proof.
  intros CRON_SECRET req handler w H.
  unfold guarded. rewrite validateCronSecret_cases, H.
  split; reflexivity.
Qed.

Lemma C8_wrong_secret_is_401_witness :
  strict_eq (suppliedSecret wrongSecret) (JsString (js "s3cret")) = false
  /\ cronReminders echoEnv (JsString (js "s3cret")) 1700000000001
       wrongSecret dueWorld
     = (Ok {| status := 401; json := ErrorBody (js "Unauthorized") |},
        dueWorld).
Proof.
  split; [reflexivity|].
  apply (C8_wrong_secret_is_401 (JsString (js "s3cret")) wrongSecret
           (remindersHandler echoEnv 1700000000001) dueWorld).
  reflexivity.
Defined.

(** With the right secret the same request delivers the due reminder. *)
Example right_secret_delivers :
  cronReminders echoEnv (JsString (js "s3cret")) 1700000000001
    {| header_x_cron_secret := JsUndefined;
       query_secret := JsString (js "s3cret") |} dueWorld
  = (Ok {| status := 200; json := ProcessedBody 1 |},
     {| reminders :=
          [(js "rem_1700000000000",
            {| Reminder.id := js "rem_1700000000000";
               Reminder.message := js "call mom";
               Reminder.triggerAt := Some 1700000000000;
               Reminder.createdAt := 1700000000000;
               Reminder.sent := true |})];
        conversationHistory := [];
        transportLog :=
          [{| to := js "whatsapp:+10000000000";
              body := [9200%N] ++ js " *Reminder:*" ++ [LF; LF] ++ js "call mom";
              accepted := true |}];
        agentLog := [] |}).
Proof. vm_compute. reflexivity. Qed.



End GuardFacts.

(* ===================================================================== *)
(** ** The reminder store as a keyed collection                           *)
(* ===================================================================== *)

Section StoreFacts.
Import Reminder Spec Props Examples Scenarios.

Lemma map_get_In {V} (k : jsstring) (v : V) (m : JsMap V) :
  map_get k m = Some v -> In (k, v) m.
Proof.
  induction m as [|[k0 v0] m IH]; simpl; [discriminate|].
  destruct (str_eqb k0 k) eqn:E.
  - intros [= ->]. apply str_eqb_eq in E. subst. now left.
  - intros H. right. auto.
Qed.

Lemma map_get_None_keys {V} (k : jsstring) (m : JsMap V) :
  map_get k m = None <-> ~ In k (map_keys m).
Proof.
  induction m as [|[k0 v0] m IH]; simpl.
  - split; [intros _ []|reflexivity].
  - destruct (str_eqb k0 k) eqn:E.
    + apply str_eqb_eq in E. subst. split; [discriminate|].
      intros H. exfalso. apply H. now left.
    + apply str_eqb_neq in E. rewrite IH. split.
      * intros H [H1|H1]; [congruence|contradiction].
      * intros H H1. apply H. now right.
Qed.


Lemma map_set_set {V} (k : jsstring) (v v' : V) (m : JsMap V) :
  map_set k v (map_set k v' m) = map_set k v m.
Proof.
  induction m as [|[k0 v0] m IH]; simpl.
  - now rewrite str_eqb_refl.
  - destruct (str_eqb k0 k) eqn:E; simpl.
    + now rewrite str_eqb_refl.
    + now rewrite E, IH.
Qed.

Lemma map_set_absent_keys {V} (k : jsstring) (v : V) (m : JsMap V) :
  map_get k m = None -> map_keys (map_set k v m) = map_keys m ++ [k].
Proof.
  intros H. rewrite (map_set_absent k v m H).
  unfold map_keys. now rewrite map_app.
Qed.

Lemma map_set_NoDup {V} (k : jsstring) (v : V) (m : JsMap V) :
  NoDup (map_keys m) -> NoDup (map_keys (map_set k v m)).
Proof.
  intros H. destruct (map_get k m) as [v0|] eqn:E.
  - rewrite map_set_keys_present; [assumption|congruence].
  - rewrite (map_set_absent_keys k v m E).
    apply NoDup_app; [assumption|repeat constructor; intros []| ].
    intros x Hx [<-|[]]. now apply map_get_None_keys in E.
Qed.

Lemma map_set_Forall {V} (P : jsstring * V -> Prop) (k : jsstring) (v : V)
                     (m : JsMap V) :
  P (k, v) -> Forall P m -> Forall P (map_set k v m).
Proof.
  intros Hk. induction m as [|[k0 v0] m IH]; simpl; intros H.
  - now constructor.
  - inversion H as [|? ? H0 Hm]; subst.
    destruct (str_eqb k0 k); constructor; auto.
Qed.

Lemma keyed_get (s : Store) (k : jsstring) (r : reminder) :
  keyed s -> map_get k s = Some r -> id r = k.
Proof.
  intros Hk Hg. apply map_get_In in Hg.
  unfold keyed in Hk. rewrite Forall_forall in Hk.
  now apply Hk in Hg.
Qed.

Lemma func_wellKeyed (h : Host) (clk : Clock) (a : Args) (s : Store) :
  wellKeyed s -> wellKeyed (snd (func h clk a s)).
Proof.
  intros [Hn Hk]. rewrite func_store. split.
  - now apply map_set_NoDup.
  - now apply map_set_Forall.
Qed.

Lemma markReminderSent_wellKeyed (k : jsstring) (s : Store) :
  wellKeyed s -> wellKeyed (markReminderSent k s).
Proof.
  intros [Hn Hk]. unfold markReminderSent.
  destruct (map_get k s) as [r|] eqn:E; [|now split].
  split.
  - now apply map_set_NoDup.
  - apply map_set_Forall; [|assumption]. simpl. eapply keyed_get; eauto.
Qed.

(** X1: [func] is an insert under the new identifier: afterwards that
    identifier holds the new record, every other identifier holds what it
    held before, and the store has one more entry exactly when the
    identifier was not in use. *)
Theorem X1_create_is_keyed_insert :
  forall (h : Host) (clk : Clock) (a : Args) (store : Store),
    map_get (reminderId clk) (snd (func h clk a store))
    = Some (created clk a (computeTriggerAt h clk a))
    /\ (forall k, k <> reminderId clk ->
                  map_get k (snd (func h clk a store)) = map_get k store)
    /\ (map_get (reminderId clk) store = None ->
        snd (func h clk a store)
        = store ++ [(reminderId clk, created clk a (computeTriggerAt h clk a))])
    /\ (map_get (reminderId clk) store <> None ->
        List.length (snd (func h clk a store)) = List.length store).
Proof.
  intros h clk a store. rewrite func_store.
  split; [apply map_get_set_same|]. split.
  - intros k Hk. apply map_get_set_other. congruence.
  - split.
    + apply map_set_absent.
    + apply map_set_present_length.
Qed.

Lemma X1_create_is_keyed_insert_witness :
  map_get (js "rem_1700000000000") twoReminders
  = map_get (js "rem_1700000000000") (snd firstCreate)
  /\ List.length twoReminders = 2%nat.
Proof.
  destruct (X1_create_is_keyed_insert exampleHost (at_ 1700000000001)
              inAWhile (snd firstCreate)) as [_ [Hother [Hfresh _]]].
  split.
  - apply Hother. vm_compute. discriminate.
  - unfold twoReminders. rewrite Hfresh; reflexivity.
Defined.

(** X2: an explicit time that parses wins over the offsets: the reminder
    is due at the parsed time whatever [delayMinutes], [delayHours] and
    [delayDays] are, and the call succeeds. *)
Theorem X2_explicit_time_wins :
  forall (h : Host) (clk : Clock) (a : Args) (store : Store)
         (s : jsstring) (t : Z),
    explicitTime a = Some s ->
    parseDate h s = Some t ->
    func h clk a store
    = (Success (reminderId clk) (arg_message a) (formatDate h t),
       map_set (reminderId clk) (created clk a (Some t)) store).
Proof.
  intros h clk a store s t He Hp.
  assert (T : computeTriggerAt h clk a = Some t)
    by (unfold computeTriggerAt; now rewrite He).
  rewrite (surjective_pairing (func h clk a store)).
  now rewrite func_payload, func_store, T.
Qed.

Lemma X2_explicit_time_wins_witness :
  explicitTime timeAndOffsets = Some (js "1970-01-01T00:00:10.000Z")
  /\ parseDate exampleHost (js "1970-01-01T00:00:10.000Z") = Some 10000
  /\ func exampleHost (at_ 1700000000000) timeAndOffsets []
     = (Success (reminderId (at_ 1700000000000)) (js "call mom")
          (toString 10000),
        [(reminderId (at_ 1700000000000),
          created (at_ 1700000000000) timeAndOffsets (Some 10000))]).
Proof.
  split; [reflexivity|]. split; [reflexivity|].
  apply (X2_explicit_time_wins exampleHost (at_ 1700000000000)
           timeAndOffsets [] (js "1970-01-01T00:00:10.000Z") 10000);
    reflexivity.
Defined.

(** X3: the store starts, and stays under [func] and [markReminderSent],
    a collection in which no identifier occurs twice and every reminder
    sits under the identifier it carries in its [id] field. *)
Theorem X3_store_stays_well_keyed :
  wellKeyed []
  /\ (forall (h : Host) (clk : Clock) (a : Args) (s : Store),
         wellKeyed s -> wellKeyed (snd (func h clk a s)))
  /\ (forall (k : jsstring) (s : Store),
         wellKeyed s -> wellKeyed (markReminderSent k s)).
Proof.
  split; [split; constructor|]. split.
  - apply func_wellKeyed.
  - apply markReminderSent_wellKeyed.
Qed.

Lemma X3_store_stays_well_keyed_witness :
  wellKeyed (markReminderSent (js "rem_1700000000000") twoReminders).
Proof.
  destruct X3_store_stays_well_keyed as [H0 [Hf Hm]].
  apply Hm. unfold twoReminders. apply Hf. unfold firstCreate. apply Hf.
  exact H0.
Defined.

Lemma markReminderSent_get (k k' : jsstring) (s : Store) (r : reminder) :
  map_get k' s = Some r ->
  exists r', map_get k' (markReminderSent k s) = Some r' /\ sameButSent r r'.
Proof.
  intros Hg. unfold markReminderSent.
  destruct (map_get k s) as [r0|] eqn:E.
  - destruct (str_eqb k k') eqn:Ek.
    + apply str_eqb_eq in Ek. subst k'.
      rewrite map_get_set_same. rewrite Hg in E. injection E as <-.
      eexists. split; [reflexivity|]. repeat split; reflexivity.
    + apply str_eqb_neq in Ek. rewrite map_get_set_other by assumption.
      exists r. split; [assumption|]. repeat split; auto.
  - exists r. split; [assumption|]. repeat split; auto.
Qed.

Lemma markReminderSent_keys (k : jsstring) (s : Store) :
  map_keys (markReminderSent k s) = map_keys s.
Proof.
  unfold markReminderSent. destruct (map_get k s) eqn:E; [|reflexivity].
  apply map_set_keys_present. congruence.
Qed.

Lemma markReminderSent_twice (k : jsstring) (s : Store) :
  markReminderSent k (markReminderSent k s) = markReminderSent k s.
Proof.
  unfold markReminderSent at 2 3.
  destruct (map_get k s) as [r|] eqn:E.
  - unfold markReminderSent. rewrite map_get_set_same. simpl.
    apply map_set_set.
  - unfold markReminderSent. now rewrite E.
Qed.

(** X4: marking is idempotent, does nothing for an unknown identifier,
    keeps the identifiers and their order, and changes no field of any
    stored reminder other than switching [sent] on: a due time is never
    rewritten and a sent reminder never becomes unsent. *)
Theorem X4_markReminderSent_only_switches_sent_on :
  forall (k : jsstring) (s : Store),
    markReminderSent k (markReminderSent k s) = markReminderSent k s
    /\ (map_get k s = None -> markReminderSent k s = s)
    /\ map_keys (markReminderSent k s) = map_keys s
    /\ (forall k' r,
           map_get k' s = Some r ->
           exists r',
             map_get k' (markReminderSent k s) = Some r'
             /\ sameButSent r r')
    /\ (forall r, map_get k s = Some r ->
                  exists r', map_get k (markReminderSent k s) = Some r'
                             /\ sent r' = true).
Proof.
  intros k s. split; [apply markReminderSent_twice|]. split.
  - intros H. unfold markReminderSent. now rewrite H.
  - split; [apply markReminderSent_keys|]. split.
    + intros k' r. apply markReminderSent_get.
    + intros r H. unfold markReminderSent. rewrite H, map_get_set_same.
      eexists. split; reflexivity.
Qed.

Lemma X4_markReminderSent_only_switches_sent_on_witness :
  (exists r', map_get (js "rem_1700000000001")
                (markReminderSent (js "rem_1700000000000") twoReminders)
              = Some r'
              /\ sameButSent
                   (created (at_ 1700000000001) inAWhile
                      (Some (1700000000001 + offsetMillis inAWhile))) r')
  /\ markReminderSent (js "rem_1") twoReminders = twoReminders.
Proof.
  destruct (X4_markReminderSent_only_switches_sent_on
              (js "rem_1700000000000") twoReminders)
    as [_ [_ [_ [Hget _]]]].
  destruct (X4_markReminderSent_only_switches_sent_on
              (js "rem_1") twoReminders) as [_ [Hnone _]].
  split.
  - apply Hget. reflexivity.
  - apply Hnone. reflexivity.
Defined.

Lemma pendingOf_In (now : Z) (s : Store) (r : reminder) :
  In r (pendingOf now s) -> exists k, In (k, r) s.
Proof.
  induction s as [|[k0 r0] s IH]; simpl; [intros []|].
  destruct (negb (sent r0) && date_le (triggerAt r0) (Some now)).
  - intros [<-|H]; [exists k0; now left|].
    destruct (IH H) as [k Hk]. exists k. now right.
  - intros H. destruct (IH H) as [k Hk]. exists k. now right.
Qed.

Lemma pending_other_ids (now : Z) (k : jsstring) (s : Store) :
  keyed s -> ~ In k (map_keys s) ->
  filter (fun r => negb (str_eqb (id r) k)) (pendingOf now s) = pendingOf now s.
Proof.
  intros Hk Hn. apply forallb_filter_id. apply forallb_forall.
  intros r Hr. destruct (pendingOf_In now s r Hr) as [k0 Hin].
  unfold keyed in Hk. rewrite Forall_forall in Hk.
  specialize (Hk _ Hin). simpl in Hk.
  apply negb_true_iff, str_eqb_neq. intros E.
  apply Hn. rewrite <- E, Hk. apply (in_map fst _ _ Hin).
Qed.

Lemma pendingOf_mark (now : Z) (k : jsstring) (r' : reminder) (s : Store) :
  NoDup (map_keys s) -> keyed s -> sent r' = true ->
  map_get k s <> None ->
  pendingOf now (map_set k r' s)
  = filter (fun r => negb (str_eqb (id r) k)) (pendingOf now s).
Proof.
  intros Hn Hk Hs. induction s as [|[k0 r0] s IH]; simpl; [congruence|].
  simpl in Hn. apply NoDup_cons_iff in Hn. destruct Hn as [Hnot Hn'].
  unfold keyed in Hk. apply Forall_cons_iff in Hk. destruct Hk as [Hid Hk'].
  simpl in Hid.
  destruct (str_eqb k0 k) eqn:E.
  - intros _. apply str_eqb_eq in E. simpl. rewrite Hs. simpl.
    destruct (negb (sent r0) && date_le (triggerAt r0) (Some now)); simpl.
    + rewrite Hid, E, str_eqb_refl. simpl.
      symmetry. apply pending_other_ids; [assumption|]. now rewrite <- E.
    + symmetry. apply pending_other_ids; [assumption|]. now rewrite <- E.
  - intros Hg. simpl. rewrite (IH Hn' Hk' Hg).
    destruct (negb (sent r0) && date_le (triggerAt r0) (Some now)); simpl;
      [|reflexivity].
    now rewrite Hid, E.
Qed.

Lemma pending_after_mark (now : Z) (k : jsstring) (s : Store) :
  wellKeyed s ->
  getPendingReminders now (markReminderSent k s)
  = filter (fun r => negb (str_eqb (id r) k)) (getPendingReminders now s).
Proof.
  intros [Hn Hk]. unfold getPendingReminders, markReminderSent.
  destruct (map_get k s) as [r|] eqn:E.
  - apply pendingOf_mark; auto. congruence.
  - symmetry. apply pending_other_ids; [assumption|].
    now apply map_get_None_keys.
Qed.

(** X5: in a well-keyed store, marking an identifier removes from the scan
    exactly the reminder with that identifier: the scan after the mark is
    the scan before it without that reminder, in the same order. *)
Theorem X5_marked_reminder_leaves_the_scan :
  forall (now : Z) (k : jsstring) (s : Store),
    wellKeyed s ->
    getPendingReminders now (markReminderSent k s)
    = filter (fun r => negb (str_eqb (id r) k)) (getPendingReminders now s)
    /\ (forall r, In r (getPendingReminders now (markReminderSent k s)) ->
                  id r <> k).
Proof.
  intros now k s Hw. split; [now apply pending_after_mark|].
  intros r Hr. rewrite (pending_after_mark now k s Hw) in Hr.
  apply filter_In in Hr as [_ Hr].
  now apply negb_true_iff, str_eqb_neq in Hr.
Qed.

Lemma twoReminders_wellKeyed : wellKeyed twoReminders.
Proof.
  unfold twoReminders, firstCreate.
  do 2 apply func_wellKeyed. split; constructor.
Qed.

Lemma X5_marked_reminder_leaves_the_scan_witness :
  wellKeyed twoReminders
  /\ getPendingReminders 1900000000000
       (markReminderSent (js "rem_1700000000000") twoReminders)
     = filter (fun r => negb (str_eqb (id r) (js "rem_1700000000000")))
         (getPendingReminders 1900000000000 twoReminders).
Proof.
  split; [exact twoReminders_wellKeyed|].
  apply (X5_marked_reminder_leaves_the_scan 1900000000000
           (js "rem_1700000000000") twoReminders twoReminders_wellKeyed).
Defined.



End StoreFacts.

(* ===================================================================== *)
(** ** More on chunking                                                   *)
(* ===================================================================== *)

Section ChunkMore.
Import WhatsApp Spec Props.

Lemma nonWhite_app (s t : jsstring) :
  nonWhite (s ++ t) = nonWhite s ++ nonWhite t.
Proof. apply filter_app. Qed.

Lemma nonWhite_trimStart (s : jsstring) : nonWhite (trimStart s) = nonWhite s.
Proof.
  induction s as [|c s IH]; simpl; [reflexivity|].
  destruct (isWhiteSpace c) eqn:E; simpl; [exact IH|].
  now rewrite E.
Qed.

Lemma nonWhite_rev (s : jsstring) : nonWhite (rev s) = rev (nonWhite s).
Proof.
  induction s as [|c s IH]; simpl; [reflexivity|].
  rewrite nonWhite_app, IH. simpl.
  destruct (isWhiteSpace c); simpl; [now rewrite app_nil_r|reflexivity].
Qed.

Lemma nonWhite_trim (s : jsstring) : nonWhite (trim s) = nonWhite s.
Proof.
  unfold trim, trimEnd.
  now rewrite nonWhite_rev, nonWhite_trimStart, nonWhite_rev, rev_involutive,
    nonWhite_trimStart.
Qed.

Lemma split_at_break (remaining : jsstring) (n : Z) :
  0 <= n ->
  substring remaining 0 n ++ substringFrom remaining n = remaining.
Proof.
  intros H. rewrite substring_prefix, substringFrom_suffix by assumption.
  apply firstn_skipn.
Qed.

(** The loop drops white space only. *)
Lemma splitLoop_nonWhite (maxLength : Z) :
  1 <= maxLength ->
  forall (fuel : nat) (remaining : jsstring) (chunks result : list jsstring),
    splitLoop fuel maxLength remaining chunks = Some result ->
    nonWhite (List.concat result)
    = nonWhite (List.concat chunks) ++ nonWhite remaining.
Proof.
  intros Hm. induction fuel as [|fuel IH]; intros remaining chunks result H;
    [discriminate|].
  rewrite splitLoop_step in H.
  destruct (Z.ltb_spec 0 (len remaining)) as [Hpos|Hpos].
  - destruct (Z.leb_spec (len remaining) maxLength).
    + injection H as <-. rewrite concat_app, nonWhite_app. simpl.
      now rewrite app_nil_r.
    + apply IH in H. rewrite H, concat_app, nonWhite_app, nonWhite_trim.
      simpl. rewrite app_nil_r, <- app_assoc, <- nonWhite_app.
      destruct (findBreakPoint_spec remaining maxLength Hm) as [Hb _].
      rewrite split_at_break by lia. reflexivity.
  - injection H as <-.
    assert (E : remaining = []).
    { destruct remaining; [reflexivity|]. unfold len in Hpos. simpl in Hpos. lia. }
    subst. simpl. now rewrite app_nil_r.
Qed.

(** X7: for a bound of at least one code unit, chunking loses nothing but
    white space: the code units of the chunks that are not white space are
    those of the text, in the same order. *)
Theorem X7_splitMessage_keeps_every_visible_code_unit :
  forall (text : jsstring) (maxLength : Z) (chunks : list jsstring),
    1 <= maxLength ->
    splitMessage text maxLength = Some chunks ->
    nonWhite (List.concat chunks) = nonWhite text.
Proof.
  intros text maxLength chunks Hm H. unfold splitMessage in H.
  destruct (len text <=? maxLength).
  - injection H as <-. simpl. now rewrite app_nil_r.
  - now apply (splitLoop_nonWhite maxLength Hm) in H.
Qed.

Lemma X7_splitMessage_keeps_every_visible_code_unit_witness :
  splitMessage (js "ab cd ef") 3 = Some [js "ab"; js "cd"; js "ef"]
  /\ nonWhite (List.concat [js "ab"; js "cd"; js "ef"])
     = nonWhite (js "ab cd ef").
Proof.
  split; [reflexivity|].
  apply (X7_splitMessage_keeps_every_visible_code_unit (js "ab cd ef") 3);
    [lia|reflexivity].
Defined.

Lemma trimStart_headOk (s : jsstring) : headOk (trimStart s).
Proof.
  induction s as [|c s IH]; simpl; [exact I|].
  destruct (isWhiteSpace c) eqn:E; [exact IH|exact E].
Qed.

Lemma trimStart_keeps_last (s : jsstring) (c : code_unit) :
  isWhiteSpace c = false -> exists u, trimStart (s ++ [c]) = u ++ [c].
Proof.
  intros Hc. induction s as [|d s IH]; simpl.
  - rewrite Hc. now exists [].
  - destruct (isWhiteSpace d); [exact IH|]. now exists (d :: s).
Qed.

Lemma trim_headOk (s : jsstring) : headOk (trim s).
Proof.
  unfold trim, trimEnd.
  pose proof (trimStart_headOk s) as H.
  destruct (trimStart s) as [|c t]; [exact I|].
  simpl in H. simpl rev.
  destruct (trimStart_keeps_last (rev t) c H) as [u ->].
  rewrite rev_app_distr. exact H.
Qed.

Lemma break_after_head (remaining : jsstring) (maxLength : Z) :
  1 <= maxLength -> headOk remaining ->
  1 <= findBreakPoint remaining maxLength <= maxLength.
Proof.
  intros Hm Hh.
  destruct (findBreakPoint_spec remaining maxLength Hm) as [Hb Hz].
  destruct (Z.eq_dec (findBreakPoint remaining maxLength) 0) as [E|E]; [|lia].
  destruct (Hz E) as [rest ->]. simpl in Hh. discriminate.
Qed.

(** From a remainder that does not begin with white space, the loop adds
    non-empty chunks only. *)
Lemma splitLoop_nonempty (maxLength : Z) :
  1 <= maxLength ->
  forall (fuel : nat) (remaining : jsstring) (chunks result : list jsstring),
    headOk remaining ->
    splitLoop fuel maxLength remaining chunks = Some result ->
    exists more, result = chunks ++ more /\ Forall (fun c => c <> []) more.
Proof.
  intros Hm. induction fuel as [|fuel IH];
    intros remaining chunks result Hh H; [discriminate|].
  rewrite splitLoop_step in H.
  destruct (Z.ltb_spec 0 (len remaining)) as [Hpos|Hpos].
  - assert (Hne : remaining <> [])
      by (intros ->; unfold len in Hpos; simpl in Hpos; lia).
    destruct (Z.leb_spec (len remaining) maxLength) as [Hle|Hgt].
    + injection H as <-. exists [remaining]. split; [reflexivity|].
      now constructor.
    + apply IH in H; [|apply trim_headOk].
      destruct H as [more [-> F]].
      exists (substring remaining 0 (findBreakPoint remaining maxLength)
              :: more).
      split; [now rewrite <- app_assoc|].
      constructor; [|exact F].
      pose proof (break_after_head remaining maxLength Hm Hh) as Hb.
      rewrite substring_prefix by lia.
      destruct remaining as [|c rest]; [contradiction|].
      destruct (Z.to_nat (findBreakPoint (c :: rest) maxLength)) eqn:En;
        [lia|]. simpl. discriminate.
  - injection H as <-. exists []. split; [now rewrite app_nil_r|constructor].
Qed.

Lemma splitMessage_shape (text : jsstring) (maxLength : Z)
                         (chunks : list jsstring) :
  1 <= maxLength ->
  splitMessage text maxLength = Some chunks ->
  chunks <> []
  /\ Forall (fun c => c <> []) (tl chunks)
  /\ (text = [] -> chunks = [[]]).
Proof.
  intros Hm H. unfold splitMessage in H.
  destruct (Z.leb_spec (len text) maxLength) as [Hle|Hgt].
  - injection H as <-. split; [discriminate|]. split; [constructor|].
    now intros ->.
  - rewrite splitLoop_step in H.
    destruct (Z.ltb_spec 0 (len text)) as [Hpos|Hpos]; [|lia].
    destruct (Z.leb_spec (len text) maxLength); [lia|].
    apply (splitLoop_nonempty maxLength Hm) in H; [|apply trim_headOk].
    destruct H as [more [-> F]]. simpl.
    split; [discriminate|]. split; [exact F|].
    intros ->. unfold len in Hpos. simpl in Hpos. lia.
Qed.

(** X8: for a bound of at least one code unit, [splitMessage] never
    returns an empty list of chunks (the empty text gives one empty chunk),
    and no chunk after the first is empty. *)
Theorem X8_only_the_first_chunk_can_be_empty :
  forall (text : jsstring) (maxLength : Z) (chunks : list jsstring),
    1 <= maxLength ->
    splitMessage text maxLength = Some chunks ->
    chunks <> []
    /\ Forall (fun c => c <> []) (tl chunks)
    /\ (text = [] -> chunks = [[]]).
Proof. intros text maxLength chunks. apply splitMessage_shape. Qed.

Lemma X8_only_the_first_chunk_can_be_empty_witness :
  splitMessage (js " abcdef") 3 = Some [[]; js "abc"; js "def"]
  /\ [[]; js "abc"; js "def"] <> []
  /\ Forall (fun c : jsstring => c <> []) (tl [[]; js "abc"; js "def"]).
Proof.
  split; [reflexivity|].
  destruct (X8_only_the_first_chunk_can_be_empty (js " abcdef") 3
              [[]; js "abc"; js "def"] ltac:(lia) eq_refl) as [H1 [H2 _]].
  split; assumption.
Defined.

Lemma lastIndexFrom_none (c : code_unit) (s : jsstring) (k : nat) :
  (forall i, (i <= k)%nat -> nth_error s i <> Some c) ->
  lastIndexFrom c s k = -1.
Proof.
  induction k as [|k IH]; intros H; cbn [lastIndexFrom].
  - destruct (nth_error s 0) as [d|] eqn:E; [|reflexivity].
    destruct (N.eqb_spec d c); [|reflexivity].
    subst. exfalso. now apply (H 0%nat).
  - destruct (nth_error s (S k)) as [d|] eqn:E.
    + destruct (N.eqb_spec d c).
      * subst. exfalso. now apply (H (S k)).
      * apply IH. intros i Hi. apply H. lia.
    + apply IH. intros i Hi. apply H. lia.
Qed.

Lemma lastIndexFrom_only_first (c : code_unit) (s : jsstring) (k : nat) :
  nth_error s 0 = Some c ->
  (forall i, (1 <= i <= k)%nat -> nth_error s i <> Some c) ->
  lastIndexFrom c s k = 0.
Proof.
  intros H0. induction k as [|k IH]; intros H; cbn [lastIndexFrom].
  - now rewrite H0, N.eqb_refl.
  - destruct (nth_error s (S k)) as [d|] eqn:E.
    + destruct (N.eqb_spec d c).
      * subst. exfalso. apply (H (S k)); [lia|assumption].
      * apply IH. intros i Hi. apply H. lia.
    + apply IH. intros i Hi. apply H. lia.
Qed.

(** X9: the first chunk is empty when the text is longer than the bound
    and begins with a space that is the only break candidate: a leading
    space followed by at least [maxLength] code units, the first
    [maxLength] of which hold no space and no newline. *)
Theorem X9_leading_space_gives_an_empty_first_chunk :
  forall (rest : jsstring) (maxLength : Z),
    1 <= maxLength ->
    maxLength <= len rest ->
    (forall c, In c (firstn (Z.to_nat maxLength) rest) ->
               c <> SPACE /\ c <> LF) ->
    exists more, splitMessage (SPACE :: rest) maxLength = Some ([] :: more).
Proof.
  intros rest maxLength Hm Hlen Hfree.
  assert (Hl : len (SPACE :: rest) = len rest + 1)
    by (unfold len; simpl List.length; lia).
  assert (Hidx : forall c i, (1 <= i <= Z.to_nat maxLength)%nat ->
                             nth_error (SPACE :: rest) i = Some c ->
                             c <> SPACE /\ c <> LF).
  { intros c i Hi Hn. destruct i as [|i]; [lia|]. simpl in Hn.
    apply Hfree. apply (nth_error_In _ i).
    rewrite nth_error_firstn.
    destruct (Nat.ltb_spec i (Z.to_nat maxLength)); [assumption|lia]. }
  assert (Hk : Z.to_nat (Z.min (Z.max maxLength 0) (len (SPACE :: rest) - 1))
               = Z.to_nat maxLength) by (f_equal; lia).
  assert (Hb : findBreakPoint (SPACE :: rest) maxLength = 0).
  { unfold findBreakPoint, lastIndexOf. rewrite Hk.
    rewrite (lastIndexFrom_none LF).
    - rewrite (lastIndexFrom_only_first SPACE); [reflexivity|reflexivity|].
      intros i Hi Hn. now destruct (Hidx SPACE i Hi Hn).
    - intros i Hi Hn. destruct i as [|i]; [discriminate|].
      assert (Hi' : (1 <= S i <= Z.to_nat maxLength)%nat) by lia.
      now destruct (Hidx LF (S i) Hi' Hn). }
  unfold splitMessage.
  destruct (Z.leb_spec (len (SPACE :: rest)) maxLength); [lia|].
  rewrite splitLoop_step.
  destruct (Z.ltb_spec 0 (len (SPACE :: rest))); [|lia].
  destruct (Z.leb_spec (len (SPACE :: rest)) maxLength); [lia|].
  rewrite Hb.
  destruct (splitLoop_returns maxLength Hm (List.length (SPACE :: rest))
              (trim (substringFrom (SPACE :: rest) 0))
              ([] ++ [substring (SPACE :: rest) 0 0]))
    as [more [E _]].
  - rewrite <- Hb. apply remainder_shrinks; lia.
  - exists more. exact E.
Qed.

Lemma X9_leading_space_gives_an_empty_first_chunk_witness :
  1 <= 3 /\ 3 <= len (js "abcdef")
  /\ exists more, splitMessage (SPACE :: js "abcdef") 3 = Some ([] :: more).
Proof.
  split; [lia|]. split; [vm_compute; discriminate|].
  apply (X9_leading_space_gives_an_empty_first_chunk (js "abcdef") 3).
  - lia.
  - vm_compute. discriminate.
  - intros c Hc. simpl in Hc.
    destruct Hc as [<-|[<-|[<-|[]]]]; split; discriminate.
Defined.

Lemma splitLoop_zero_bound (s : jsstring) :
  s <> [] -> noWhiteSpace s ->
  forall (fuel : nat) (chunks : list jsstring),
    splitLoop fuel 0 s chunks = None.
Proof.
  intros Hne Hws. induction fuel as [|fuel IH]; intros chunks;
    [reflexivity|].
  rewrite splitLoop_step.
  assert (Hpos : 0 < len s).
  { destruct s; [contradiction|]. unfold len. simpl List.length. lia. }
  destruct (Z.ltb_spec 0 (len s)); [|lia].
  destruct (Z.leb_spec (len s) 0); [lia|].
  rewrite (findBreakPoint_noWhiteSpace s 0 Hws).
  rewrite substringFrom_suffix by lia.
  change (skipn (Z.to_nat 0) s) with s.
  rewrite (trim_noWhiteSpace s Hws). apply IH.
Qed.

(** X10: the bound of at least one code unit is needed: at [maxLength = 0]
    the loop makes no progress on a non-empty text without white space; it
    pushes an empty chunk and leaves the remainder as it was, so no number
    of iterations ends it. *)
Theorem X10_splitMessage_does_not_end_at_bound_zero :
  forall (s : jsstring),
    s <> [] -> noWhiteSpace s ->
    (forall (fuel : nat) (chunks : list jsstring),
        splitLoop fuel 0 s chunks = None)
    /\ (forall (chunks : list jsstring) (fuel : nat),
           splitLoop (S fuel) 0 s chunks
           = splitLoop fuel 0 s (chunks ++ [[]])).
Proof.
  intros s Hne Hws. split; [now apply splitLoop_zero_bound|].
  intros chunks fuel. rewrite splitLoop_step.
  assert (Hpos : 0 < len s).
  { destruct s; [contradiction|]. unfold len. simpl List.length. lia. }
  destruct (Z.ltb_spec 0 (len s)); [|lia].
  destruct (Z.leb_spec (len s) 0); [lia|].
  rewrite (findBreakPoint_noWhiteSpace s 0 Hws).
  rewrite substringFrom_suffix, substring_prefix by lia.
  change (skipn (Z.to_nat 0) s) with s.
  change (firstn (Z.to_nat 0) s) with (@nil code_unit).
  now rewrite (trim_noWhiteSpace s Hws).
Qed.

Lemma X10_splitMessage_does_not_end_at_bound_zero_witness :
  js "a" <> [] /\ noWhiteSpace (js "a")
  /\ splitLoop 1000 0 (js "a") [] = None.
Proof.
  assert (Hne : js "a" <> []) by discriminate.
  assert (Hws : noWhiteSpace (js "a")) by (repeat constructor).
  split; [exact Hne|]. split; [exact Hws|].
  apply (X10_splitMessage_does_not_end_at_bound_zero (js "a") Hne Hws).
Defined.

End ChunkMore.

(* ===================================================================== *)
(** ** The gateway and the other paths of the dispatcher                  *)
(* ===================================================================== *)

Section GatewayFacts.
Import WhatsApp Spec Props Examples Scenarios.

Lemma sendChunks_transcript (env : Env) (to_ : jsstring)
                            (chunks : list jsstring) :
  forall w : World,
    exists r calls,
      sendChunks env to_ chunks w = (r, logged w calls)
      /\ transcript env (List.length (transportLog w)) to_ chunks r calls
      /\ (chunks <> [] -> calls <> []).
Proof.
  induction chunks as [|c chunks IH]; intros w.
  - exists (Ok tt), []. simpl. unfold ret. rewrite logged_nil.
    split; [reflexivity|]. split; [|congruence].
    repeat split; try constructor.
    + intros i c Hc. destruct i; discriminate.
    + discriminate.
  - simpl. unfold bind. rewrite messages_create_eq.
    set (n := List.length (transportLog w)).
    destruct (transport env n) eqn:Et.
    + destruct (IH (logged w [call to_ true c])) as [r [calls [E [T _]]]].
      exists r, (call to_ true c :: calls).
      unfold call in *. rewrite E, logged_logged.
      split; [reflexivity|]. split; [|discriminate].
      rewrite logged_length in T. simpl List.length in T.
      destruct T as [Hb [Ht [Hi [Hok Hth]]]].
      split; [simpl; now rewrite Hb|].
      split; [now constructor|].
      split.
      * intros i c0 Hc. destruct i as [|i]; simpl in Hc.
        -- injection Hc as <-. simpl. now rewrite Nat.add_0_r.
        -- rewrite (Hi i c0 Hc). f_equal. fold n. lia.
      * split.
        -- intros Hr. destruct (Hok Hr) as [Hl Ha].
           split; [simpl; now rewrite Hl|now constructor].
        -- intros Hr. destruct (Hth Hr) as [d [x [-> [Hd Hx]]]].
           exists ({| to := to_; body := c; accepted := true |} :: d), x.
           split; [reflexivity|]. split; [now constructor|exact Hx].
    + exists Thrown, [call to_ false c]. unfold call.
      split; [reflexivity|]. split; [|discriminate].
      split; [reflexivity|].
      split; [now repeat constructor|].
      split.
      * intros i c0 Hc. destruct i as [|[|i]]; simpl in Hc; try discriminate.
        injection Hc as <-. simpl. now rewrite Nat.add_0_r.
      * split; [discriminate|].
        intros _. exists [], {| to := to_; body := c; accepted := false |}.
        split; [reflexivity|]. split; [constructor|reflexivity].
Qed.

Lemma send_transcript (env : Env) (to_ message : jsstring) (w : World) :
  exists chunks r calls,
    splitMessage message 1500 = Some chunks
    /\ sendWhatsAppMessage env to_ message w = (r, logged w calls)
    /\ transcript env (List.length (transportLog w)) to_ chunks r calls
    /\ calls <> [].
Proof.
  destruct (sendWhatsAppMessage_chunks env to_ message) as [chunks [E ->]].
  destruct (sendChunks_transcript env to_ chunks w) as [r [calls [Es [T Hne]]]].
  exists chunks, r, calls. split; [exact E|]. split; [exact Es|].
  split; [exact T|]. apply Hne.
  destruct (splitMessage_shape message 1500 chunks) as [H _]; [lia|exact E|].
  exact H.
Qed.

(** X11: one send makes at least one call of the transport; the calls carry
    the chunks of the message in order, all to the one recipient, and stop
    at the first chunk the provider rejects; the send returns exactly when
    every chunk was accepted and throws otherwise, after which the chunks
    already accepted stay sent.  Nothing but the log of the transport
    changes. *)
Theorem X11_send_delivers_a_prefix_of_the_chunks :
  forall (env : Env) (to_ message : jsstring) (w : World),
    exists chunks r calls,
      splitMessage message 1500 = Some chunks
      /\ sendWhatsAppMessage env to_ message w = (r, logged w calls)
      /\ transcript env (List.length (transportLog w)) to_ chunks r calls
      /\ calls <> [].
Proof. apply send_transcript. Qed.

Lemma send_result (env : Env) (to_ message : jsstring) (w : World) :
  exists r calls,
    sendWhatsAppMessage env to_ message w = (r, logged w calls)
    /\ calls <> [] /\ Forall (fun c => to c = to_) calls.
Proof.
  destruct (send_transcript env to_ message w)
    as [chunks [r [calls [_ [E [[_ [Ht _]] Hne]]]]]].
  now exists r, calls.
Qed.

Lemma resolvedText_None (env : Env) (from : jsstring) (b : TwilioBody)
                        (w : World) :
  resolvedText env b = None ->
  resolveContent env from b w
  = (sendWhatsAppMessage env from transcriptionApology ;;; ret None) w.
Proof.
  unfold resolvedText, resolveContent.
  destruct (audioUrl b) as [url|]; [|discriminate].
  now intros ->.
Qed.

(** What a call of the handler can do to the state. *)
Lemma handle_effects (env : Env) (from : jsstring) (b : TwilioBody)
                     (w : World) :
  exists calls agentCalls,
    transportLog (snd (handleIncomingMessage env from b w))
    = transportLog w ++ calls
    /\ calls <> []
    /\ Forall (fun c => to c = from) calls
    /\ agentLog (snd (handleIncomingMessage env from b w))
       = agentLog w ++ agentCalls
    /\ (List.length agentCalls <= 1)%nat
    /\ Forall (fun c => history c = getHistory from w /\ userPhone c = from)
              agentCalls
    /\ (conversationHistory (snd (handleIncomingMessage env from b w))
        = conversationHistory w
        \/ exists text response,
            conversationHistory (snd (handleIncomingMessage env from b w))
            = map_set from (appendTurn (getHistory from w) text response)
                (conversationHistory w)).
Proof.
  unfold handleIncomingMessage, try_catch, bind.
  destruct (resolvedText env b) as [text|] eqn:Hres.
  - rewrite (resolveContent_resolved env from b w text Hres).
    destruct (truthy_str (trim text)).
    + unfold get_world, call_runAgent.
      destruct (runAgent env (List.length (agentLog w)) text
                  (getHistory from w) from) as [response|].
      * unfold set_history.
        cbn [reminders conversationHistory transportLog agentLog].
        match goal with
        | |- context [sendWhatsAppMessage env from response ?w1] =>
            destruct (send_result env from response w1)
              as [r [c [E [Hne Hto]]]]; rewrite E
        end.
        destruct r as [[]|].
        -- exists c, [{| userMessage := text; history := getHistory from w;
                         userPhone := from |}].
           simpl. repeat split; auto. right. now exists text, response.
        -- match goal with
           | |- context [sendWhatsAppMessage env from genericApology ?w1] =>
               destruct (send_result env from genericApology w1)
                 as [r2 [c2 [E2 [Hne2 Hto2]]]]; rewrite E2
           end.
           exists (c ++ c2),
                  [{| userMessage := text; history := getHistory from w;
                      userPhone := from |}].
           simpl. rewrite app_assoc. repeat split; auto.
           ++ destruct c; [contradiction|discriminate].
           ++ apply Forall_app. now split.
           ++ right. now exists text, response.
      * match goal with
        | |- context [sendWhatsAppMessage env from genericApology ?w1] =>
            destruct (send_result env from genericApology w1)
              as [r2 [c2 [E2 [Hne2 Hto2]]]]; rewrite E2
        end.
        exists c2, [{| userMessage := text; history := getHistory from w;
                       userPhone := from |}].
        simpl. repeat split; auto.
    + destruct (send_result env from didntCatchThat w)
        as [r [c [E [Hne Hto]]]]. rewrite E.
      destruct r as [[]|].
      * exists c, []. simpl. rewrite app_nil_r. repeat split; auto.
      * destruct (send_result env from genericApology (logged w c))
          as [r2 [c2 [E2 [Hne2 Hto2]]]]. rewrite E2.
        exists (c ++ c2), []. simpl. rewrite app_nil_r, app_assoc.
        repeat split; auto.
        -- destruct c; [contradiction|discriminate].
        -- apply Forall_app. now split.
  - rewrite (resolvedText_None env from b w Hres). unfold bind.
    destruct (send_result env from transcriptionApology w)
      as [r [c [E [Hne Hto]]]]. rewrite E.
    destruct r as [[]|].
    + exists c, []. simpl. rewrite app_nil_r. repeat split; auto.
    + destruct (send_result env from genericApology (logged w c))
        as [r2 [c2 [E2 [Hne2 Hto2]]]]. rewrite E2.
      exists (c ++ c2), []. simpl. rewrite app_nil_r, app_assoc.
      repeat split; auto.
      * destruct c; [contradiction|discriminate].
      * apply Forall_app. now split.
Qed.

(** X12: whatever the event and whatever the collaborators do, the handler
    makes at least one call of the transport, every call goes to the sender
    of the event, the reasoning loop is invoked at most once and with the
    sender's stored history, and the history of every other sender is left
    as it was. *)
Theorem X12_every_event_is_answered_to_its_sender :
  forall (env : Env) (from : jsstring) (b : TwilioBody) (w : World),
    (exists calls,
        transportLog (snd (handleIncomingMessage env from b w))
        = transportLog w ++ calls
        /\ calls <> []
        /\ Forall (fun c => to c = from) calls)
    /\ (exists agentCalls,
           agentLog (snd (handleIncomingMessage env from b w))
           = agentLog w ++ agentCalls
           /\ (List.length agentCalls <= 1)%nat
           /\ Forall (fun c => history c = getHistory from w
                               /\ userPhone c = from) agentCalls)
    /\ (forall other,
           other <> from ->
           map_get other
             (conversationHistory (snd (handleIncomingMessage env from b w)))
           = map_get other (conversationHistory w)).
Proof.
  intros env from b w.
  destruct (handle_effects env from b w)
    as [calls [agentCalls [Ht [Hne [Hto [Ha [Hl [Hh Hc]]]]]]]].
  split; [now exists calls|]. split; [now exists agentCalls|].
  intros other Hother.
  destruct Hc as [->|[text [response ->]]]; [reflexivity|].
  apply map_get_set_other. congruence.
Qed.

Lemma X12_every_event_is_answered_to_its_sender_witness :
  map_get (js "whatsapp:+15550002222")
    (conversationHistory
       (snd (handleIncomingMessage echoEnv sender textHi emptyWorld)))
  = map_get (js "whatsapp:+15550002222") (conversationHistory emptyWorld).
Proof.
  destruct (X12_every_event_is_answered_to_its_sender echoEnv sender textHi
              emptyWorld) as [_ [_ H]].
  apply H. vm_compute. discriminate.
Defined.

Lemma didntCatchThat_short : len didntCatchThat <= 1500.
Proof. vm_compute. discriminate. Qed.

(** A short fixed text sent from inside the handler's [try]: one call when
    it is accepted, and the generic apology after it when it is not. *)
Lemma short_send_in_try (env : Env) (from text : jsstring) (w : World) :
  len text <= 1500 ->
  try_catch (sendWhatsAppMessage env from text)
            (sendWhatsAppMessage env from genericApology) w
  = if transport env (List.length (transportLog w))
    then (Ok tt, logged w [call from true text])
    else (if transport env (S (List.length (transportLog w)))
          then Ok tt else Thrown,
          logged w [call from false text;
                    call from (transport env (S (List.length (transportLog w))))
                         genericApology]).
Proof.
  intros Hs. unfold try_catch, call.
  rewrite (sendWhatsAppMessage_short env from text w Hs), messages_create_eq.
  destruct (transport env (List.length (transportLog w))); [reflexivity|].
  rewrite (sendWhatsAppMessage_short env from genericApology _
             genericApology_short), messages_create_eq.
  rewrite logged_logged, logged_length. cbn [List.length app].
  rewrite Nat.add_1_r. reflexivity.
Qed.

(** X13: when the text of the event is empty or white space only (a text
    message without body, or a transcription that came back blank), the
    reasoning loop is not invoked and no history is written; the first call
    of the transport carries the fixed "didn't catch that" text, and it is
    the only call when the provider accepts it; when it is rejected, one
    call with the generic apology follows. *)
Theorem X13_blank_text_is_not_reasoned_about :
  forall (env : Env) (from : jsstring) (b : TwilioBody) (w : World)
         (text : jsstring),
    resolvedText env b = Some text ->
    truthy_str (trim text) = false ->
    handleIncomingMessage env from b w
    = if transport env (List.length (transportLog w))
      then (Ok tt, logged w [call from true didntCatchThat])
      else (if transport env (S (List.length (transportLog w)))
            then Ok tt else Thrown,
            logged w [call from false didntCatchThat;
                      call from
                        (transport env (S (List.length (transportLog w))))
                        genericApology]).
Proof.
  intros env from b w text Hres Hblank.
  rewrite <- (short_send_in_try env from didntCatchThat w didntCatchThat_short).
  unfold handleIncomingMessage, try_catch, bind.
  now rewrite (resolveContent_resolved env from b w text Hres), Hblank.
Qed.

Lemma X13_blank_text_is_not_reasoned_about_witness :
  resolvedText echoEnv blankBody = Some (js "   ")
  /\ truthy_str (trim (js "   ")) = false
  /\ handleIncomingMessage echoEnv sender blankBody emptyWorld
     = (Ok tt, logged emptyWorld [call sender true didntCatchThat]).
Proof.
  split; [reflexivity|]. split; [reflexivity|].
  apply (X13_blank_text_is_not_reasoned_about echoEnv sender blankBody
           emptyWorld (js "   ")); reflexivity.
Defined.



End GatewayFacts.

(* ===================================================================== *)
(** ** Sessions are made of whole turns                                   *)
(* ===================================================================== *)

Section SessionFacts.
Import WhatsApp Spec Props Examples Scenarios.

Lemma skipn_turns (j : nat) :
  forall turns : list (jsstring * jsstring),
    skipn (2 * j) (List.concat (map turnEntries turns))
    = List.concat (map turnEntries (skipn j turns)).
Proof.
  induction j as [|j IH]; intros turns; [reflexivity|].
  destruct turns as [|t turns]; [reflexivity|].
  replace (2 * S j)%nat with (S (S (2 * j))) by lia.
  simpl. apply IH.
Qed.

Lemma lastN_turns (k : nat) (turns : list (jsstring * jsstring)) :
  lastN (2 * k) (List.concat (map turnEntries turns))
  = List.concat (map turnEntries (lastN k turns)).
Proof.
  unfold lastN. rewrite concat_turnEntries_length, <- skipn_turns.
  f_equal. lia.
Qed.

Lemma lastN_lastN {A} (n m : nat) (l : list A) :
  (n <= m)%nat -> lastN n (lastN m l) = lastN n l.
Proof.
  intros H. unfold lastN at 1. rewrite lastN_length.
  unfold lastN. rewrite skipn_skipn. f_equal. lia.
Qed.

Lemma appendTurn_wholeTurns (h : History) (u a : jsstring) :
  wholeTurns h ->
  wholeTurns (appendTurn h u a)
  /\ (List.length (appendTurn h u a) <= 20)%nat.
Proof.
  intros [turns ->]. rewrite appendTurn_lastN. split.
  - exists (lastN 10 (turns ++ [(u, a)])).
    rewrite <- lastN_turns, map_app, concat_app. reflexivity.
  - rewrite lastN_length. lia.
Qed.

Lemma getHistory_ok (from : jsstring) (w : World) :
  sessionsOk (conversationHistory w) -> wholeTurns (getHistory from w).
Proof.
  intros H. unfold getHistory.
  destruct (map_get from (conversationHistory w)) as [h|] eqn:E.
  - apply map_get_In in E. unfold sessionsOk in H.
    rewrite Forall_forall in H. now apply H in E.
  - now exists [].
Qed.

(** X15: the stored histories stay well formed: if every session holds at
    most 20 entries and is made of whole turns (a user entry followed by
    the assistant's), so it is after any event, whatever the collaborators
    do. *)
Theorem X15_sessions_stay_whole_turns :
  forall (env : Env) (from : jsstring) (b : TwilioBody) (w : World),
    sessionsOk (conversationHistory w) ->
    sessionsOk
      (conversationHistory (snd (handleIncomingMessage env from b w))).
Proof.
  intros env from b w Hok.
  destruct (handle_effects env from b w)
    as [calls [agentCalls [_ [_ [_ [_ [_ [_ Hc]]]]]]]].
  destruct Hc as [->|[text [response ->]]]; [exact Hok|].
  apply map_set_Forall; [|exact Hok]. simpl.
  apply appendTurn_wholeTurns. now apply getHistory_ok.
Qed.

Lemma X15_sessions_stay_whole_turns_witness :
  sessionsOk (conversationHistory emptyWorld)
  /\ sessionsOk
       (conversationHistory
          (snd (handleIncomingMessage echoEnv sender textHi emptyWorld))).
Proof.
  assert (H : sessionsOk (conversationHistory emptyWorld)) by constructor.
  split; [exact H|].
  apply (X15_sessions_stay_whole_turns echoEnv sender textHi emptyWorld H).
Defined.

Lemma toChat_turns (turns : list (jsstring * jsstring)) :
  map Agent.toChat (List.concat (map turnEntries turns))
  = List.concat
      (map (fun t => [Agent.HumanMessage (fst t); Agent.AIMessage (snd t)])
           turns).
Proof.
  induction turns as [|t turns IH]; simpl; [reflexivity|]. now rewrite IH.
Qed.

(** X16: on a history the dispatcher has built from a fresh session, the
    reasoning loop is given the system prompt, then the last five completed
    turns as human and assistant messages in order, then the new message:
    of the ten turns kept, only the last five are shown.  What [runAgent]
    returns is never the empty text. *)
Theorem X16_the_model_sees_the_last_five_turns :
  forall (systemPrompt userMessage : jsstring)
         (turns : list (jsstring * jsstring)),
    Agent.buildMessages systemPrompt (playTurns [] turns) userMessage
    = [Agent.SystemMessage systemPrompt]
      ++ List.concat
           (map (fun t => [Agent.HumanMessage (fst t);
                           Agent.AIMessage (snd t)])
                (lastN 5 turns))
      ++ [Agent.HumanMessage userMessage]
    /\ (List.length
          (Agent.buildMessages systemPrompt (playTurns [] turns) userMessage)
        <= 12)%nat
    /\ (forall invoke n h phone response,
           Agent.runAgent systemPrompt invoke n userMessage h phone
           = Some response ->
           response <> []).
Proof.
  intros systemPrompt userMessage turns.
  assert (E : Agent.sliceLast 10 (playTurns [] turns)
              = List.concat (map turnEntries (lastN 5 turns))).
  { rewrite playTurns_lastN by (simpl; lia). simpl app.
    change (Agent.sliceLast 10) with (@lastN Entry 10).
    rewrite (lastN_turns 10), (lastN_turns 5), lastN_lastN by lia.
    reflexivity. }
  unfold Agent.buildMessages. rewrite E, toChat_turns.
  split; [reflexivity|]. split.
  - rewrite <- toChat_turns, !length_app, length_map.
    rewrite concat_turnEntries_length, lastN_length.
    cbn [List.length]. lia.
  - intros invoke n h phone response. unfold Agent.runAgent.
    destruct (invoke n _) as [c|]; [|discriminate].
    intros [= <-]. unfold Agent.finalResponse.
    destruct c; simpl; discriminate.
Qed.

Lemma X16_the_model_sees_the_last_five_turns_witness :
  Agent.buildMessages (js "sys") (playTurns [] elevenTurns) (js "hi")
  = [Agent.SystemMessage (js "sys")]
    ++ List.concat
         (map (fun t => [Agent.HumanMessage (fst t); Agent.AIMessage (snd t)])
              (lastN 5 elevenTurns))
    ++ [Agent.HumanMessage (js "hi")].
Proof.
  destruct (X16_the_model_sees_the_last_five_turns (js "sys") (js "hi")
              elevenTurns) as [H _].
  exact H.
Defined.

End SessionFacts.

(* ===================================================================== *)
(** ** Processing the pending reminders                                   *)
(* ===================================================================== *)

Section ProcessingFacts.
Import Reminder WhatsApp Server Spec Props Examples Scenarios.

Lemma sameButSent_refl (r : reminder) : sameButSent r r.
Proof. repeat split; auto. Qed.

Lemma sameButSent_trans (a b c : reminder) :
  sameButSent a b -> sameButSent b c -> sameButSent a c.
Proof.
  intros [H1 [H2 [H3 [H4 H5]]]] [G1 [G2 [G3 [G4 G5]]]].
  repeat split; try congruence. auto.
Qed.

Lemma evolves_refl (s : Store) : evolves s s.
Proof.
  split; [reflexivity|]. intros k r H. exists r. split; [assumption|].
  apply sameButSent_refl.
Qed.

Lemma evolves_trans (a b c : Store) :
  evolves a b -> evolves b c -> evolves a c.
Proof.
  intros [K1 G1] [K2 G2]. split; [congruence|].
  intros k r H. destruct (G1 k r H) as [r1 [H1 S1]].
  destruct (G2 k r1 H1) as [r2 [H2 S2]].
  exists r2. split; [assumption|]. eapply sameButSent_trans; eauto.
Qed.

Lemma evolves_mark (k : jsstring) (s : Store) :
  evolves s (markReminderSent k s).
Proof.
  split; [apply markReminderSent_keys|].
  intros k' r. apply markReminderSent_get.
Qed.

(** One round of the loop of [processPendingReminders]. *)
Lemma deliver_one (env : Env) (r : reminder) (w : World) :
  exists res calls,
    sendWhatsAppMessage env (YOUR_WHATSAPP_NUMBER env) (reminderText r) w
    = (res, logged w calls)
    /\ try_catch
         (sendWhatsAppMessage env (YOUR_WHATSAPP_NUMBER env) (reminderText r) ;;;
          w0 <- get_world ;;
          set_reminders (markReminderSent (id r) (reminders w0)))
         (ret tt) w
       = (Ok tt,
          match res with
          | Ok _ =>
              logged (withReminders w (markReminderSent (id r) (reminders w)))
                     calls
          | Thrown => logged w calls
          end).
Proof.
  destruct (send_result env (YOUR_WHATSAPP_NUMBER env) (reminderText r) w)
    as [res [calls [E _]]].
  exists res, calls. split; [exact E|].
  unfold try_catch, bind. rewrite E.
  destruct res as [[]|]; reflexivity.
Qed.

Lemma deliver_general (env : Env) (pending : list reminder) :
  forall w : World,
    exists w',
      deliverPending env pending w = (Ok tt, w')
      /\ conversationHistory w' = conversationHistory w
      /\ agentLog w' = agentLog w
      /\ evolves (reminders w) (reminders w')
      /\ exists calls, transportLog w' = transportLog w ++ calls.
Proof.
  induction pending as [|r pending IH]; intros w.
  - exists w. split; [reflexivity|]. split; [reflexivity|].
    split; [reflexivity|]. split; [apply evolves_refl|].
    exists []. now rewrite app_nil_r.
  - cbn [deliverPending]. unfold bind at 1.
    destruct (deliver_one env r w) as [res [calls [_ ->]]].
    match goal with
    | |- context [deliverPending env pending ?w1] =>
        destruct (IH w1) as [w' [E [Hc [Ha [He [calls' Ht]]]]]]
    end.
    exists w'. split; [exact E|].
    destruct res as [[]|]; simpl in *;
      (split; [exact Hc|]); (split; [exact Ha|]); split.
    + eapply evolves_trans; [apply evolves_mark|exact He].
    + exists (calls ++ calls'). now rewrite Ht, app_assoc.
    + exact He.
    + exists (calls ++ calls'). now rewrite Ht, app_assoc.
Qed.

(** X17: processing never throws: it returns the number of reminders that
    were pending on entry, whether or not their sends succeeded, so the
    endpoint always answers 200 with that count.  It leaves the sessions
    and the log of the reasoning loop alone, keeps every reminder under
    its identifier, and changes no reminder other than switching [sent]
    on. *)
Theorem X17_processing_counts_and_only_marks :
  forall (env : Env) (now : Z) (req : Request) (w : World),
    exists w',
      processPendingReminders env now w
      = (Ok (List.length (getPendingReminders now (reminders w))), w')
      /\ remindersHandler env now req w
         = (Ok {| status := 200;
                  json := ProcessedBody
                            (List.length
                               (getPendingReminders now (reminders w))) |},
            w')
      /\ conversationHistory w' = conversationHistory w
      /\ agentLog w' = agentLog w
      /\ evolves (reminders w) (reminders w').
Proof.
  intros env now req w.
  destruct (deliver_general env (getPendingReminders now (reminders w)) w)
    as [w' [E [Hc [Ha [He _]]]]].
  exists w'.
  assert (P : processPendingReminders env now w
              = (Ok (List.length (getPendingReminders now (reminders w))),
                 w')).
  { unfold processPendingReminders, bind, get_world. now rewrite E. }
  split; [exact P|]. split.
  - unfold remindersHandler, try_catch, bind. now rewrite P.
  - split; [exact Hc|]. split; [exact Ha|exact He].
Qed.

Lemma transcript_answers (env : Env) (n : nat) (to_ : jsstring)
                         (chunks : list jsstring) (r : Result unit)
                         (calls : list Outbound) (answer : bool) :
  (forall i, transport env i = answer) ->
  transcript env n to_ chunks r calls ->
  Forall (fun c => accepted c = answer) calls.
Proof.
  intros Ht [_ [_ [Hi _]]]. apply Forall_forall. intros c Hc.
  destruct (In_nth_error _ _ Hc) as [i Hn].
  now rewrite (Hi i c Hn).
Qed.

Lemma send_accepting (env : Env) (to_ message : jsstring) (w : World) :
  (forall n, transport env n = true) ->
  exists calls,
    sendWhatsAppMessage env to_ message w = (Ok tt, logged w calls).
Proof.
  intros Ht.
  destruct (send_transcript env to_ message w)
    as [chunks [r [calls [_ [E [T _]]]]]].
  exists calls. rewrite E. f_equal.
  destruct r as [[]|]; [reflexivity|].
  pose proof (transcript_answers env _ to_ chunks Thrown calls true Ht T) as F.
  destruct T as [_ [_ [_ [_ Hth]]]].
  destruct (Hth eq_refl) as [d [x [-> [_ Hx]]]].
  apply Forall_app in F as [_ F]. inversion F as [|? ? Hax _]; subst.
  congruence.
Qed.

Lemma send_rejecting (env : Env) (to_ message : jsstring) (w : World) :
  (forall n, transport env n = false) ->
  exists c,
    sendWhatsAppMessage env to_ message w = (Thrown, logged w [c])
    /\ accepted c = false /\ to c = to_.
Proof.
  intros Ht.
  destruct (send_transcript env to_ message w)
    as [chunks [r [calls [_ [E [T Hne]]]]]].
  pose proof (transcript_answers env _ to_ chunks r calls false Ht T) as F.
  destruct T as [_ [Hto [_ [Hok Hth]]]].
  destruct r as [[]|].
  - destruct (Hok eq_refl) as [_ Ha].
    destruct calls as [|c calls]; [contradiction|].
    inversion F; inversion Ha; subst. congruence.
  - destruct (Hth eq_refl) as [d [x [-> [Hd Hx]]]].
    destruct d as [|c d].
    + exists x. rewrite E. split; [reflexivity|]. split; [exact Hx|].
      now inversion Hto.
    + inversion F; inversion Hd; subst. congruence.
Qed.

Lemma deliver_accepting (env : Env) :
  (forall n, transport env n = true) ->
  forall (pending : list reminder) (w : World),
    exists calls,
      deliverPending env pending w
      = (Ok tt,
         logged (withReminders w (markAll pending (reminders w))) calls).
Proof.
  intros Ht. induction pending as [|r pending IH]; intros w.
  - exists []. rewrite logged_nil. destruct w. reflexivity.
  - cbn [deliverPending]. unfold bind at 1.
    destruct (deliver_one env r w) as [res [calls [Es ->]]].
    destruct (send_accepting env (YOUR_WHATSAPP_NUMBER env) (reminderText r)
                w Ht) as [calls0 E0].
    rewrite E0 in Es. injection Es as <- _.
    match goal with
    | |- context [deliverPending env pending ?w1] =>
        destruct (IH w1) as [calls' ->]
    end.
    exists (calls ++ calls'). unfold logged, withReminders, markAll. simpl.
    now rewrite app_assoc.
Qed.

Lemma deliver_rejecting (env : Env) :
  (forall n, transport env n = false) ->
  forall (pending : list reminder) (w : World),
    exists calls,
      deliverPending env pending w = (Ok tt, logged w calls)
      /\ List.length calls = List.length pending
      /\ Forall (fun c => accepted c = false
                          /\ to c = YOUR_WHATSAPP_NUMBER env) calls.
Proof.
  intros Ht. induction pending as [|r pending IH]; intros w.
  - exists []. rewrite logged_nil. now repeat split.
  - cbn [deliverPending]. unfold bind at 1.
    destruct (deliver_one env r w) as [res [calls [Es ->]]].
    destruct (send_rejecting env (YOUR_WHATSAPP_NUMBER env) (reminderText r)
                w Ht) as [c [E0 [Hc Hto]]].
    rewrite E0 in Es. injection Es as <- Hl.
    assert (Ec : calls = [c]).
    { apply app_inv_head in Hl. now symmetry. }
    subst calls.
    destruct (IH (logged w [c])) as [calls' [-> [Hlen F]]].
    exists (c :: calls'). rewrite logged_logged.
    split; [reflexivity|]. split; [simpl; now rewrite Hlen|].
    constructor; [now split|exact F].
Qed.

Lemma filter_filter_and {A} (f g : A -> bool) (l : list A) :
  filter f (filter g l) = filter (fun x => g x && f x) l.
Proof.
  induction l as [|x l IH]; simpl; [reflexivity|].
  destruct (g x); simpl; [|exact IH].
  destruct (f x); now rewrite IH.
Qed.

Lemma markAll_wellKeyed (rs : list reminder) :
  forall s, wellKeyed s -> wellKeyed (markAll rs s).
Proof.
  induction rs as [|q rs IH]; intros s Hs; [exact Hs|].
  apply IH. now apply markReminderSent_wellKeyed.
Qed.

Lemma pending_after_markAll (now : Z) (rs : list reminder) :
  forall s,
    wellKeyed s ->
    getPendingReminders now (markAll rs s)
    = filter (fun r => forallb (fun q => negb (str_eqb (id r) (id q))) rs)
        (getPendingReminders now s).
Proof.
  induction rs as [|q rs IH]; intros s Hs.
  - simpl. symmetry. apply forallb_filter_id. now apply forallb_forall.
  - change (markAll (q :: rs) s) with (markAll rs (markReminderSent (id q) s)).
    rewrite IH by now apply markReminderSent_wellKeyed.
    rewrite (pending_after_mark now (id q) s Hs), filter_filter_and.
    reflexivity.
Qed.

Lemma filter_none {A} (f : A -> bool) (l : list A) :
  (forall x, In x l -> f x = false) -> filter f l = [].
Proof.
  induction l as [|x l IH]; intros H; simpl; [reflexivity|].
  rewrite (H x) by now left. apply IH. intros y Hy. apply H. now right.
Qed.

Lemma pending_all_marked (now : Z) (s : Store) :
  wellKeyed s ->
  getPendingReminders now (markAll (getPendingReminders now s) s) = [].
Proof.
  intros Hs. rewrite (pending_after_markAll now _ s Hs).
  apply filter_none. intros r Hr.
  apply not_true_is_false. intros H. rewrite forallb_forall in H.
  specialize (H r Hr). now rewrite str_eqb_refl in H.
Qed.

(** X18: when the provider accepts every call and the store is well keyed,
    one run of the processing marks every reminder that was pending: right
    after it nothing is pending at that time, and a second run at the same
    time returns 0 and changes nothing. *)
Theorem X18_accepted_reminders_are_delivered_once :
  forall (env : Env) (now : Z) (w : World),
    (forall n, transport env n = true) ->
    wellKeyed (reminders w) ->
    exists w',
      processPendingReminders env now w
      = (Ok (List.length (getPendingReminders now (reminders w))), w')
      /\ reminders w'
         = markAll (getPendingReminders now (reminders w)) (reminders w)
      /\ getPendingReminders now (reminders w') = []
      /\ processPendingReminders env now w' = (Ok 0%nat, w').
Proof.
  intros env now w Ht Hs.
  destruct (deliver_accepting env Ht (getPendingReminders now (reminders w)) w)
    as [calls E].
  eexists. unfold processPendingReminders at 1, bind, get_world.
  rewrite E. split; [reflexivity|].
  cbn [reminders logged withReminders].
  split; [reflexivity|]. split; [now apply pending_all_marked|].
  unfold processPendingReminders, bind, get_world.
  cbn [reminders logged withReminders].
  now rewrite (pending_all_marked now (reminders w) Hs).
Qed.

Lemma dueWorld_wellKeyed : wellKeyed (reminders dueWorld).
Proof.
  change (reminders dueWorld) with (snd firstCreate). unfold firstCreate.
  apply func_wellKeyed. split; constructor.
Qed.

Lemma X18_accepted_reminders_are_delivered_once_witness :
  wellKeyed (reminders dueWorld)
  /\ exists w',
      processPendingReminders echoEnv 1700000000001 dueWorld
      = (Ok (List.length
               (getPendingReminders 1700000000001 (reminders dueWorld))), w')
      /\ getPendingReminders 1700000000001 (reminders w') = []
      /\ processPendingReminders echoEnv 1700000000001 w' = (Ok 0%nat, w').
Proof.
  split; [exact dueWorld_wellKeyed|].
  destruct (X18_accepted_reminders_are_delivered_once echoEnv 1700000000001
              dueWorld (fun _ => eq_refl) dueWorld_wellKeyed)
    as [w' [H1 [_ [H3 H4]]]].
  exists w'. split; [exact H1|]. split; [exact H3|exact H4].
Defined.

(** X19: when the provider rejects every call, processing still returns
    the number of pending reminders, but marks none: it makes one rejected
    call per pending reminder, to the operator's number, and leaves the
    store as it was, so the same reminders are pending at the next run. *)
Theorem X19_rejected_reminders_stay_pending :
  forall (env : Env) (now : Z) (w : World),
    (forall n, transport env n = false) ->
    exists calls,
      processPendingReminders env now w
      = (Ok (List.length (getPendingReminders now (reminders w))),
         logged w calls)
      /\ List.length calls
         = List.length (getPendingReminders now (reminders w))
      /\ Forall (fun c => accepted c = false
                          /\ to c = YOUR_WHATSAPP_NUMBER env) calls
      /\ reminders (logged w calls) = reminders w.
Proof.
  intros env now w Ht.
  destruct (deliver_rejecting env Ht (getPendingReminders now (reminders w)) w)
    as [calls [E [Hl F]]].
  exists calls. unfold processPendingReminders, bind, get_world.
  rewrite E. now repeat split.
Qed.

Lemma X19_rejected_reminders_stay_pending_witness :
  exists calls,
    processPendingReminders deadEnv 1700000000001 dueWorld
    = (Ok (List.length
             (getPendingReminders 1700000000001 (reminders dueWorld))),
       logged dueWorld calls)
    /\ List.length calls
       = List.length (getPendingReminders 1700000000001 (reminders dueWorld)).
Proof.
  destruct (X19_rejected_reminders_stay_pending deadEnv 1700000000001
              dueWorld (fun _ => eq_refl)) as [calls [H1 [H2 _]]].
  exists calls. split; [exact H1|exact H2].
Defined.

End ProcessingFacts.

(* ===================================================================== *)
(** ** The guard with a configured secret, and the daily summary          *)
(* ===================================================================== *)

Section EndpointFacts.
Import WhatsApp Server Spec Props Examples Scenarios.

Lemma strict_eq_string (v : JsValue) (s : jsstring) :
  strict_eq v (JsString s) = true <-> v = JsString s.
Proof.
  rewrite strict_eq_spec. split; [now intros [H _]|].
  intros ->. split; [reflexivity|discriminate].
Qed.

(** X20: with a configured secret that is not empty, a request passes the
    guard exactly when its header equals the secret, or its header is
    absent or empty and its query parameter equals the secret.  The header
    takes precedence: behind a non-empty header that differs from the
    secret, a right query parameter is of no use. *)
Theorem X20_header_takes_precedence_over_query :
  forall (s : jsstring) (req : Request),
    s <> [] ->
    (validateCronSecret (JsString s) req = Next
     <-> (header_x_cron_secret req = JsString s
          \/ (truthy (header_x_cron_secret req) = false
              /\ query_secret req = JsString s)))
    /\ (truthy (header_x_cron_secret req) = true ->
        header_x_cron_secret req <> JsString s ->
        validateCronSecret (JsString s) req
        = Respond {| status := 401; json := ErrorBody (js "Unauthorized") |}).
Proof.
  intros s req Hs. rewrite validateCronSecret_cases.
  unfold suppliedSecret, js_or.
  assert (Ts : truthy (JsString s) = true)
    by (destruct s; [contradiction|reflexivity]).
  destruct (truthy (header_x_cron_secret req)) eqn:Th.
  - pose proof (strict_eq_string (header_x_cron_secret req) s) as S.
    destruct (strict_eq (header_x_cron_secret req) (JsString s)).
    + split; [|intros _ H; exfalso; apply H; now apply S].
      split; [intros _; left; now apply S|reflexivity].
    + split; [|reflexivity].
      split; [discriminate|].
      intros [H|[H _]]; [apply S in H|]; discriminate.
  - pose proof (strict_eq_string (query_secret req) s) as S.
    split; [|discriminate].
    destruct (strict_eq (query_secret req) (JsString s)).
    + split; [intros _; right; split; [reflexivity|now apply S]|reflexivity].
    + split; [discriminate|].
      intros [H|[_ H]].
      * rewrite H, Ts in Th. discriminate.
      * apply S in H. discriminate.
Qed.

Lemma X20_header_takes_precedence_over_query_witness :
  js "s3cret" <> []
  /\ truthy (header_x_cron_secret wrongHeaderRightQuery) = true
  /\ header_x_cron_secret wrongHeaderRightQuery <> JsString (js "s3cret")
  /\ validateCronSecret (JsString (js "s3cret")) wrongHeaderRightQuery
     = Respond {| status := 401; json := ErrorBody (js "Unauthorized") |}.
Proof.
  assert (H1 : js "s3cret" <> []) by discriminate.
  assert (H3 : header_x_cron_secret wrongHeaderRightQuery
               <> JsString (js "s3cret")) by discriminate.
  split; [exact H1|]. split; [reflexivity|]. split; [exact H3|].
  destruct (X20_header_takes_precedence_over_query (js "s3cret")
              wrongHeaderRightQuery H1) as [_ H].
  apply H; [reflexivity|exact H3].
Defined.

(** X21: the daily summary endpoint.  When the calendar tool returns its
    failure payload the handler answers 500 and nothing is sent: the
    operator gets no message.  With an agenda, the summary goes to the
    operator's number as the chunks of its text; the answer is 200 when
    every chunk was accepted and 500 when one was rejected, and in both
    cases nothing but the log of the transport changes and no apology is
    sent. *)
Theorem X21_daily_summary_answers :
  forall (env : Env) (formatStartTime : option jsstring -> jsstring)
         (today : Daily.TodaysEvents) (req : Request) (w : World),
    match today with
    | Daily.CalendarFailure _ =>
        Daily.handleDailySummary env formatStartTime today req w
        = (Ok {| status := 500; json := CaughtErrorBody |}, w)
    | Daily.Agenda date events =>
        exists chunks r calls,
          splitMessage (Daily.summaryText formatStartTime date events) 1500
          = Some chunks
          /\ transcript env (List.length (transportLog w))
               (YOUR_WHATSAPP_NUMBER env) chunks r calls
          /\ calls <> []
          /\ Daily.handleDailySummary env formatStartTime today req w
             = (Ok match r with
                   | Ok _ =>
                       {| status := 200;
                          json := MessageBody (js "Daily summary sent") |}
                   | Thrown => {| status := 500; json := CaughtErrorBody |}
                   end,
                logged w calls)
    end.
Proof.
  intros env formatStartTime today req w.
  destruct today as [date events|error]; [|reflexivity].
  destruct (send_transcript env (YOUR_WHATSAPP_NUMBER env)
              (Daily.summaryText formatStartTime date events) w)
    as [chunks [r [calls [E [Es [T Hne]]]]]].
  exists chunks, r, calls. split; [exact E|]. split; [exact T|].
  split; [exact Hne|].
  unfold Daily.handleDailySummary, Daily.sendDailyReminders, try_catch, bind.
  rewrite Es. destruct r as [[]|]; reflexivity.
Qed.

(** The summary of a day with one timed event and one all-day event. *)
Example daily_summary_text :
  Daily.summaryText identityTime (js "Monday, January 15, 2024") twoEvents
  = Daily.SUNRISE ++ js " *Good morning!*" ++ [LF; LF]
    ++ Daily.CALENDAR ++ js " *Today's Schedule (Monday, January 15, 2024):*"
    ++ [LF; LF]
    ++ js "1. " ++ Daily.ALARM
    ++ js " *Standup* at 2024-01-15T09:00:00-05:00" ++ [LF]
    ++ js "2. " ++ Daily.SUNRISE ++ js " *Holiday* (All day)" ++ [LF]
    ++ [LF] ++ js "Have a productive day! " ++ Daily.MUSCLE.
Proof. vm_compute. reflexivity. Qed.

End EndpointFacts.

(* ===================================================================== *)
(** ** Detecting an audio message                                         *)
(* ===================================================================== *)

Section AudioFacts.
Import WhatsApp Audio Spec Props Examples Scenarios.

Lemma digitsValue_print (d : Decimal.uint) :
  forall acc, digitsValue acc (js (NilEmpty.string_of_uint d)) = uintValue acc d.
Proof.
  induction d; intros acc; simpl; try apply IHd; reflexivity.
Qed.

Lemma uintValue_pos (d : Decimal.uint) :
  forall acc : positive,
    uintValue (Z.pos acc) d = Z.pos (Pos.of_uint_acc d acc).
Proof.
  induction d; intros acc; cbn [uintValue Pos.of_uint_acc]; [reflexivity|..];
    rewrite <- IHd; f_equal; lia.
Qed.

Lemma uintValue_of_uint (d : Decimal.uint) :
  uintValue 0 d = Z.of_N (Pos.of_uint d).
Proof.
  induction d; cbn [uintValue Pos.of_uint]; [reflexivity|exact IHd|..];
    apply uintValue_pos.
Qed.

Lemma digit_is_plain (c : code_unit) :
  isDigit c = true ->
  isWhiteSpace c = false /\ (c =? 45)%N = false /\ (c =? 43)%N = false.
Proof.
  unfold isDigit. intros H. apply andb_true_iff in H as [H1 H2].
  apply N.leb_le in H1, H2.
  assert (Hne : forall k : N, (k < 48 \/ 57 < k)%N -> (c =? k)%N = false)
    by (intros k Hk; apply N.eqb_neq; lia).
  split; [|split; apply Hne; lia].
  unfold isWhiteSpace.
  replace (c <=? 13)%N with false by (symmetry; apply N.leb_gt; lia).
  replace (8192 <=? c)%N with false by (symmetry; apply N.leb_gt; lia).
  rewrite !Hne by lia. now rewrite andb_false_r.
Qed.

Lemma parseInt10_digits (c : code_unit) (rest : jsstring) :
  isDigit c = true ->
  parseInt10 (c :: rest) = Some (digitsValue 0 (c :: rest)).
Proof.
  intros Hd. destruct (digit_is_plain c Hd) as [Hw [Hm Hp]].
  unfold parseInt10. cbn [trimStart]. rewrite Hw, Hm, Hp. cbn [orb].
  now rewrite Hd.
Qed.

Lemma print_starts_with_digit (d : Decimal.uint) :
  d <> Decimal.Nil ->
  exists c rest,
    js (NilEmpty.string_of_uint d) = c :: rest /\ isDigit c = true.
Proof.
  intros Hd. destruct d; [contradiction|..];
    eexists; eexists; (split; [reflexivity|reflexivity]).
Qed.

(** [parseInt] reads back what [String] prints. *)
Lemma parseInt10_toString (n : Z) : 0 <= n -> parseInt10 (toString n) = Some n.
Proof.
  intros Hn. destruct n as [|p|p]; [reflexivity| |lia].
  unfold toString. cbn [Z.to_int NilEmpty.string_of_int].
  destruct (print_starts_with_digit (Pos.to_uint p))
    as [c [rest [E Hd]]]; [apply DecimalPos.Unsigned.to_uint_nonnil|].
  rewrite E, (parseInt10_digits c rest Hd), <- E.
  rewrite digitsValue_print, uintValue_of_uint, DecimalPos.Unsigned.of_to.
  reflexivity.
Qed.

Lemma toString_nonempty (n : Z) : 0 <= n -> truthy_str (toString n) = true.
Proof.
  intros Hn. pose proof (parseInt10_toString n Hn) as H.
  destruct (toString n); [discriminate|reflexivity].
Qed.

(** X22: a webhook body is taken for an audio message only when its first
    content type begins with "audio/" and its media count does not read as
    zero.  An absent or empty count is never audio; a count printed from a
    whole number [n >= 0] is audio exactly when [n] is not zero and the
    type is an audio type; and a count that does not read as a number does
    not block the message: the content type alone decides then. *)
Theorem X22_audio_needs_a_count_and_an_audio_type :
  forall b : RawBody,
    (isAudioMessage b = true ->
     startsWith (orElse (MediaContentType0 b) []) (js "audio/") = true
     /\ parseInt10 (orElse (NumMedia b) (js "0")) <> Some 0)
    /\ (NumMedia b = None \/ NumMedia b = Some [] -> isAudioMessage b = false)
    /\ (forall n,
           0 <= n -> NumMedia b = Some (toString n) ->
           isAudioMessage b
           = if n =? 0 then false
             else startsWith (orElse (MediaContentType0 b) []) (js "audio/"))
    /\ (parseInt10 (orElse (NumMedia b) (js "0")) = None ->
        isAudioMessage b
        = startsWith (orElse (MediaContentType0 b) []) (js "audio/")).
Proof.
  intros b. unfold isAudioMessage. split; [|split; [|split]].
  - destruct (parseInt10 (orElse (NumMedia b) (js "0"))) as [[|p|p]|];
      intros H; (split; [exact H || discriminate|discriminate]).
  - intros [->| ->]; reflexivity.
  - intros n Hn ->. unfold orElse.
    rewrite (toString_nonempty n Hn), (parseInt10_toString n Hn).
    now destruct n.
  - now intros ->.
Qed.

Lemma X22_audio_needs_a_count_and_an_audio_type_witness :
  isAudioMessage rawVoiceNote = true
  /\ isAudioMessage rawPicture = false.
Proof.
  destruct (X22_audio_needs_a_count_and_an_audio_type rawVoiceNote)
    as [_ [_ [Hv _]]].
  destruct (X22_audio_needs_a_count_and_an_audio_type rawPicture)
    as [_ [_ [Hp _]]].
  split.
  - rewrite (Hv 1); reflexivity || lia.
  - rewrite (Hp 1); reflexivity || lia.
Defined.

Lemma view_resolved (env : Env) (b : RawBody) :
  resolvedText env (view b)
  = if isAudioMessage b
    then transcribeAudio env
           (match getAudioUrl b with
            | Some url => url
            | None => js "undefined"
            end)
    else Some (orElse (raw_Body b) []).
Proof.
  unfold resolvedText, view. simpl.
  destruct (isAudioMessage b); [reflexivity|].
  unfold orElse. now destruct (raw_Body b).
Qed.

(** X23: media that is not audio is ignored.  A webhook body that is not
    an audio message is handled as its text alone ([Body || '']), whatever
    media it carries, and when that text is empty or white space only (a
    picture without caption) the reasoning loop is not invoked and the
    sender is sent the fixed "didn't catch that" text.  An audio message is
    handled as its transcription. *)
Theorem X23_media_that_is_not_audio_is_ignored :
  forall (env : Env) (from : jsstring) (b : RawBody) (w : World),
    (isAudioMessage b = true ->
     resolvedText env (view b)
     = transcribeAudio env
         (match getAudioUrl b with
          | Some url => url
          | None => js "undefined"
          end))
    /\ (isAudioMessage b = false ->
        resolvedText env (view b) = Some (orElse (raw_Body b) []))
    /\ (isAudioMessage b = false ->
        truthy_str (trim (orElse (raw_Body b) [])) = false ->
        handleIncomingMessage env from (view b) w
        = if transport env (List.length (transportLog w))
          then (Ok tt, logged w [call from true didntCatchThat])
          else (if transport env (S (List.length (transportLog w)))
                then Ok tt else Thrown,
                logged w [call from false didntCatchThat;
                          call from
                            (transport env (S (List.length (transportLog w))))
                            genericApology])).
Proof.
  intros env from b w. pose proof (view_resolved env b) as V.
  split; [|split].
  - intros H. now rewrite H in V.
  - intros H. now rewrite H in V.
  - intros H Hblank. rewrite H in V.
    rewrite <- (short_send_in_try env from didntCatchThat w
                  didntCatchThat_short).
    unfold handleIncomingMessage, try_catch, bind.
    now rewrite (resolveContent_resolved env from (view b) w _ V), Hblank.
Qed.

Lemma X23_media_that_is_not_audio_is_ignored_witness :
  isAudioMessage rawPicture = false
  /\ truthy_str (trim (orElse (raw_Body rawPicture) [])) = false
  /\ handleIncomingMessage echoEnv sender (view rawPicture) emptyWorld
     = (Ok tt, logged emptyWorld [call sender true didntCatchThat]).
Proof.
  split; [reflexivity|]. split; [reflexivity|].
  destruct (X23_media_that_is_not_audio_is_ignored echoEnv sender rawPicture
              emptyWorld) as [_ [_ H]].
  apply H; reflexivity.
Defined.

End AudioFacts.

(* ===================================================================== *)
(** ** The notes tools                                                    *)
(* ===================================================================== *)

Section NotesFacts.
Import Notes Spec Props Examples Scenarios.

Lemma insertNote_In (n x : note) (l : list note) :
  In x (insertNote n l) <-> x = n \/ In x l.
Proof.
  induction l as [|m l IH]; simpl.
  - split; [intros [H|[]]; auto|intros [H|[]]; auto].
  - destruct (createdAt n <? createdAt m); simpl.
    + rewrite IH. split; intros H; intuition.
    + split; intros H; intuition.
Qed.

Lemma sortNotes_In (x : note) (l : list note) :
  In x (sortNotes l) <-> In x l.
Proof.
  induction l as [|n l IH]; simpl; [reflexivity|].
  rewrite insertNote_In, IH. split; intros H; intuition.
Qed.






Lemma slice0_In {A} (x : A) (l : list A) (k : Z) :
  In x (slice0 l k) -> In x l.
Proof.
  unfold slice0. intros H.
  rewrite <- (firstn_skipn (Z.to_nat
                (if k <? 0 then Z.max (Z.of_nat (List.length l) + k) 0
                 else Z.min k (Z.of_nat (List.length l)))) l).
  apply in_or_app. now left.
Qed.


Lemma includes_In (l : list jsstring) (x : jsstring) :
  includes l x = true <-> In x l.
Proof.
  unfold includes. rewrite existsb_exists. split.
  - intros [t [Ht E]]. apply str_eqb_eq in E. now subst.
  - intros H. exists x. split; [assumption|apply str_eqb_refl].
Qed.

(** X24: a tag query is matched against the tags as they were saved, but
    with the query lower-cased: every note it returns carries the
    lower-cased query among its tags.  Tags are not lower-cased when a note
    is saved, so a note whose tags all contain a letter that lower-casing
    changes is returned by no tag query, whatever the casing of the
    query. *)
Theorem X24_tag_queries_miss_tags_saved_with_capitals :
  forall (toLowerCase : jsstring -> jsstring) (a : GetArgs) (store : Store)
         (q : jsstring),
    (forall s, toLowerCase (toLowerCase s) = toLowerCase s) ->
    tag a = Some q ->
    q <> [] ->
    forall n,
      In n (selectNotes toLowerCase a store) ->
      In (toLowerCase q) (tags n)
      /\ exists t, In t (tags n) /\ toLowerCase t = t.
Proof.
  intros toLowerCase a store q Hidem Ht Hq n Hn.
  unfold selectNotes in Hn. apply slice0_In in Hn.
  rewrite sortNotes_In in Hn.
  unfold matchingNotes in Hn. rewrite Ht in Hn.
  destruct q as [|c q]; [contradiction|]. simpl truthy_str in Hn.
  apply filter_In in Hn as [_ Hn]. apply includes_In in Hn.
  split; [exact Hn|]. exists (toLowerCase (c :: q)). split; [exact Hn|].
  apply Hidem.
Qed.

Lemma asciiLower_idempotent (s : jsstring) :
  asciiLower (asciiLower s) = asciiLower s.
Proof.
  unfold asciiLower. rewrite map_map. apply map_ext. intros c. cbv beta.
  destruct ((65 <=? c) && (c <=? 90))%N eqn:E.
  - apply andb_true_iff in E as [E1 E2]. apply N.leb_le in E1, E2.
    replace (c + 32 <=? 90)%N with false by (symmetry; apply N.leb_gt; lia).
    now rewrite andb_false_r.
  - now rewrite E.
Qed.

Lemma X24_tag_queries_miss_tags_saved_with_capitals_witness :
  selectNotes asciiLower (byTag "Shopping" 5) taggedNotes = []
  /\ forall n,
      In n (selectNotes asciiLower (byTag "Shopping" 5) taggedNotes) ->
      In (asciiLower (js "Shopping")) (tags n)
      /\ exists t, In t (tags n) /\ asciiLower t = t.
Proof.
  split; [reflexivity|].
  apply (X24_tag_queries_miss_tags_saved_with_capitals asciiLower
           (byTag "Shopping" 5) taggedNotes (js "Shopping")
           asciiLower_idempotent eq_refl).
  discriminate.
Defined.



(** X26: [save_note] is an insert under [note_<milliseconds>]: afterwards
    that identifier holds the note with the content and the tags as given
    (no tags when none were given), and every other identifier holds what
    it held before.  The content echoed in the payload is the content
    itself up to 100 code units, and its first 100 followed by three dots
    beyond. *)
Theorem X26_save_note_inserts_and_echoes_a_preview :
  forall (clk : Clock) (a : SaveArgs) (store : Store),
    map_get (noteId (fst (saveNote clk a store))) (snd (saveNote clk a store))
    = Some {| id := js "note_" ++ toString (atId clk);
              content := arg_content a;
              tags := match arg_tags a with Some t => t | None => [] end;
              createdAt := atCreated clk |}
    /\ (forall k, k <> noteId (fst (saveNote clk a store)) ->
                  map_get k (snd (saveNote clk a store)) = map_get k store)
    /\ (len (arg_content a) <= 100 ->
        preview (fst (saveNote clk a store)) = arg_content a)
    /\ (100 < len (arg_content a) ->
        preview (fst (saveNote clk a store))
        = firstn 100 (arg_content a) ++ js "..."
        /\ len (preview (fst (saveNote clk a store))) = 103).
Proof.
  intros clk a store. unfold saveNote. simpl.
  split; [apply map_get_set_same|]. split.
  - intros k Hk. apply map_get_set_other. congruence.
  - unfold previewOf. rewrite substring_prefix by lia.
    change (Z.to_nat 100) with 100%nat. split.
    + intros H. destruct (Z.ltb_spec 100 (len (arg_content a))); [lia|].
      rewrite app_nil_r. apply firstn_all2. unfold len in H. lia.
    + intros H. destruct (Z.ltb_spec 100 (len (arg_content a))); [|lia].
      split; [reflexivity|]. unfold len in *.
      rewrite length_app, length_firstn. simpl List.length. lia.
Qed.

Lemma X26_save_note_inserts_and_echoes_a_preview_witness :
  preview (fst (saveNote {| atId := 1000; atCreated := 1000 |}
                  {| arg_content := js "milk"; arg_tags := None |} []))
  = js "milk"
  /\ len (preview (fst (saveNote {| atId := 1000; atCreated := 1000 |}
                          {| arg_content := repeat 97%N 150;
                             arg_tags := None |} []))) = 103.
Proof.
  destruct (X26_save_note_inserts_and_echoes_a_preview
              {| atId := 1000; atCreated := 1000 |}
              {| arg_content := js "milk"; arg_tags := None |} [])
    as [_ [_ [Hshort _]]].
  destruct (X26_save_note_inserts_and_echoes_a_preview
              {| atId := 1000; atCreated := 1000 |}
              {| arg_content := repeat 97%N 150; arg_tags := None |} [])
    as [_ [_ [_ Hlong]]].
  split.
  - apply Hshort. vm_compute. discriminate.
  - apply Hlong. vm_compute. reflexivity.
Defined.

End NotesFacts.

(* ===================================================================== *)
(** ** Web search, calendar events and the temporary audio files          *)
(* ===================================================================== *)

Section ToolFacts.
Import Spec Props Examples Scenarios.

Lemma substring_prefix_length (s : jsstring) (n : Z) :
  0 <= n -> len (substring s 0 n) <= n.
Proof.
  intros H. rewrite substring_prefix by assumption.
  unfold len. rewrite length_firstn. lia.
Qed.

(** X27: without an API key (absent or empty) [web_search] returns the
    "not configured" payload whatever the search service would answer, so
    the service is not needed; with a key it never throws: it returns the
    fixed failure payload when the request or the reading of its body
    throws, and otherwise at most the first three results of the service,
    in order, each snippet cut to at most 200 code units. *)
Theorem X27_web_search_is_off_without_a_key_and_bounded_with_one :
  forall (search : jsstring -> jsstring -> option WebSearch.SearchData)
         (query : jsstring),
    WebSearch.func None search query
    = WebSearch.Failure
        (js "Web search is not configured. Add TAVILY_API_KEY to enable.")
    /\ WebSearch.func (Some []) search query
       = WebSearch.Failure
           (js "Web search is not configured. Add TAVILY_API_KEY to enable.")
    /\ forall apiKey,
        apiKey <> [] ->
        match search apiKey query with
        | None =>
            WebSearch.func (Some apiKey) search query
            = WebSearch.Failure (js "Failed to search the web")
        | Some data =>
            exists shown,
              WebSearch.func (Some apiKey) search query
              = WebSearch.Found (WebSearch.answer data) shown
              /\ match WebSearch.results data, shown with
                 | Some all, Some views =>
                     views = map WebSearch.viewResult (firstn 3 all)
                     /\ (List.length views <= 3)%nat
                     /\ Forall (fun v =>
                                  match WebSearch.snippet v with
                                  | Some text => len text <= 200
                                  | None => True
                                  end) views
                 | None, None => True
                 | _, _ => False
                 end
        end.
Proof.
  intros search query. split; [reflexivity|]. split; [reflexivity|].
  intros apiKey Hk. unfold WebSearch.func.
  destruct apiKey as [|c k]; [contradiction|]. simpl truthy_str. cbv iota.
  destruct (search (c :: k) query) as [data|]; [|reflexivity].
  eexists. split; [reflexivity|].
  destruct (WebSearch.results data) as [all|]; cbn [option_map]; [|exact I].
  split; [reflexivity|]. split.
  - rewrite length_map, length_firstn. lia.
  - apply Forall_forall. intros v Hv. apply in_map_iff in Hv as [r [<- _]].
    unfold WebSearch.viewResult. simpl.
    destruct (WebSearch.content r); simpl; [|exact I].
    apply substring_prefix_length. lia.
Qed.

Lemma X27_web_search_is_off_without_a_key_and_bounded_with_one_witness :
  WebSearch.func (Some (js "key")) (fun _ _ => None) (js "weather")
  = WebSearch.Failure (js "Failed to search the web").
Proof.
  destruct (X27_web_search_is_off_without_a_key_and_bounded_with_one
              (fun _ _ => None) (js "weather")) as [_ [_ H]].
  apply (H (js "key")). discriminate.
Defined.

(** X28: [create_calendar_event] passes the date and the times on as they
    were given, joined as [<date>T<time>:00], and asks for a recurrence
    exactly when [recurring] is true and a recurrence type is given.  The
    payload reports [recurring] from the flag alone: with [recurring] true
    and no type, a single event is created and reported as recurring. *)
Theorem X28_recurrence_needs_flag_and_type :
  forall (TIMEZONE : option jsstring)
         (insert : Calendar.EventRequest -> option jsstring)
         (a : Calendar.CreateArgs),
    Calendar.startDateTime (Calendar.eventData TIMEZONE a)
    = Calendar.date a ++ js "T" ++ Calendar.startTime a ++ js ":00"
    /\ (Calendar.recurrence (Calendar.eventData TIMEZONE a) <> None
        <-> Calendar.recurring a = Some true
            /\ Calendar.recurrenceType a <> None)
    /\ (forall t,
           Calendar.recurring a = Some true ->
           Calendar.recurrenceType a = Some t ->
           Calendar.recurrence (Calendar.eventData TIMEZONE a)
           = Some [Calendar.recurrenceMap t])
    /\ (forall eventId,
           insert (Calendar.eventData TIMEZONE a) = Some eventId ->
           Calendar.recurring a = Some true ->
           Calendar.recurrenceType a = None ->
           Calendar.recurrence (Calendar.eventData TIMEZONE a) = None
           /\ Calendar.func TIMEZONE insert a
              = Calendar.Created eventId (Calendar.title a) (Calendar.date a)
                  (Calendar.startTime a ++ js " - " ++ Calendar.endTime a)
                  true (Calendar.timezoneOf TIMEZONE))
    /\ (insert (Calendar.eventData TIMEZONE a) = None ->
        Calendar.func TIMEZONE insert a = Calendar.Failure).
Proof.
  intros TIMEZONE insert a. split; [reflexivity|]. split; [|split; [|split]].
  - unfold Calendar.eventData. simpl.
    destruct (Calendar.recurring a) as [[|]|],
             (Calendar.recurrenceType a) as [t|]; split;
      try congruence; try (intros [H1 H2]; congruence);
      intros _; split; congruence.
  - intros t Hr Ht. unfold Calendar.eventData. simpl. now rewrite Hr, Ht.
  - intros eventId Hi Hr Ht. split.
    + unfold Calendar.eventData. simpl. now rewrite Hr, Ht.
    + unfold Calendar.func. now rewrite Hi, Hr.
  - intros Hi. unfold Calendar.func. now rewrite Hi.
Qed.

Lemma X28_recurrence_needs_flag_and_type_witness :
  Calendar.recurrence (Calendar.eventData None weeklyClass) = None
  /\ Calendar.func None (fun _ => Some (js "evt1")) weeklyClass
     = Calendar.Created (js "evt1") (js "Bachata Class") (js "2024-01-15")
         (js "19:00 - 21:00") true (js "America/New_York").
Proof.
  destruct (X28_recurrence_needs_flag_and_type None
              (fun _ => Some (js "evt1")) weeklyClass)
    as [_ [_ [_ [H _]]]].
  apply (H (js "evt1")); reflexivity.
Defined.

Lemma map_get_app_other {V} (k : jsstring) (pre m : JsMap V) :
  ~ In k (map_keys pre) -> map_get k (pre ++ m) = map_get k m.
Proof.
  induction pre as [|[k0 v0] pre IH]; simpl; [reflexivity|].
  intros H. destruct (str_eqb k0 k) eqn:E.
  - apply str_eqb_eq in E. exfalso. apply H. now left.
  - apply IH. intros Hin. apply H. now right.
Qed.

Lemma map_delete_app_other {V} (k : jsstring) (pre m : JsMap V) :
  ~ In k (map_keys pre) ->
  Tts.map_delete k (pre ++ m) = pre ++ Tts.map_delete k m.
Proof.
  induction pre as [|[k0 v0] pre IH]; simpl; [reflexivity|].
  intros H. destruct (str_eqb k0 k) eqn:E.
  - apply str_eqb_eq in E. exfalso. apply H. now left.
  - rewrite IH; [reflexivity|]. intros Hin. apply H. now right.
Qed.

Lemma deleteAudio_disk (unlinkOk : jsstring -> bool) (k : jsstring)
                       (st : Tts.State) (p : jsstring) :
  In p (Tts.disk (Tts.deleteAudio unlinkOk k st)) -> In p (Tts.disk st).
Proof.
  unfold Tts.deleteAudio.
  destruct (map_get k (Tts.audioFiles st)) as [a|]; [|auto]. simpl.
  destruct (Tts.existsSync (Tts.path a) (Tts.disk st) && unlinkOk (Tts.path a));
    [|auto].
  unfold Tts.removeFile. intros H. now apply filter_In in H as [H _].
Qed.

Lemma cleanupLoop_spec (unlinkOk : jsstring -> bool) (now : Z) :
  forall (entries pre : JsMap Tts.audio) (st : Tts.State),
    Tts.audioFiles st = pre ++ entries ->
    NoDup (map_keys (pre ++ entries)) ->
    Tts.audioFiles (Tts.cleanupLoop unlinkOk now entries st)
    = pre ++ filter (young now) entries
    /\ forall p, In p (Tts.disk (Tts.cleanupLoop unlinkOk now entries st)) ->
                 In p (Tts.disk st).
Proof.
  induction entries as [|[k a] entries IH]; intros pre st Hst Hnd.
  - simpl. rewrite app_nil_r in *. split; [exact Hst|auto].
  - cbn [Tts.cleanupLoop filter]. unfold young at 1. cbn [snd].
    assert (Hk : ~ In k (map_keys pre)).
    { unfold map_keys in *. rewrite map_app in Hnd.
      apply NoDup_remove_2 in Hnd. intros Hin. apply Hnd.
      apply in_or_app. now left. }
    destruct (Tts.maxAge <? now - Tts.createdAt a); cbn [negb].
    + assert (Hd : Tts.audioFiles (Tts.deleteAudio unlinkOk k st)
                   = pre ++ entries).
      { unfold Tts.deleteAudio. rewrite Hst, (map_get_app_other k pre) by exact Hk.
        simpl. rewrite str_eqb_refl. simpl.
        rewrite (map_delete_app_other k pre) by exact Hk.
        simpl. now rewrite str_eqb_refl. }
      destruct (IH pre (Tts.deleteAudio unlinkOk k st) Hd) as [E D].
      * unfold map_keys in *. rewrite map_app in *. simpl in Hnd.
        now apply NoDup_remove_1 in Hnd.
      * split; [exact E|]. intros p Hp.
        apply (deleteAudio_disk unlinkOk k st). now apply D.
    + destruct (IH (pre ++ [(k, a)]) st) as [E D].
      * now rewrite <- app_assoc.
      * now rewrite <- app_assoc.
      * split; [|exact D]. now rewrite E, <- app_assoc.
Qed.

Lemma map_get_unique {V} (k : jsstring) (v : V) (m : JsMap V) :
  NoDup (map_keys m) -> In (k, v) m -> map_get k m = Some v.
Proof.
  induction m as [|[k0 v0] m IH]; simpl; [intros _ []|].
  intros Hnd Hin. apply NoDup_cons_iff in Hnd as [Hnot Hnd].
  destruct Hin as [[= -> ->]|Hin].
  - now rewrite str_eqb_refl.
  - destruct (str_eqb k0 k) eqn:E; [|now apply IH].
    apply str_eqb_eq in E. subst. exfalso. apply Hnot.
    apply (in_map fst _ _ Hin).
Qed.

(** X29: a cleanup keeps exactly the tracked audio files that are at most
    ten minutes old, in their order, and creates no file; an entry older
    than that is dropped from the map whether or not its file could be
    unlinked, so [getAudioPath] answers [null] for it afterwards. *)
Theorem X29_cleanup_keeps_the_young_entries :
  forall (unlinkOk : jsstring -> bool) (now : Z) (st : Tts.State),
    NoDup (map_keys (Tts.audioFiles st)) ->
    Tts.audioFiles (Tts.cleanupOldAudio unlinkOk now st)
    = filter (young now) (Tts.audioFiles st)
    /\ (forall p, In p (Tts.disk (Tts.cleanupOldAudio unlinkOk now st)) ->
                  In p (Tts.disk st))
    /\ (forall audioId a,
           map_get audioId (Tts.audioFiles st) = Some a ->
           Tts.maxAge < now - Tts.createdAt a ->
           Tts.getAudioPath audioId (Tts.cleanupOldAudio unlinkOk now st)
           = None).
Proof.
  intros unlinkOk now st Hnd.
  destruct (cleanupLoop_spec unlinkOk now (Tts.audioFiles st) [] st eq_refl Hnd)
    as [E D].
  fold (Tts.cleanupOldAudio unlinkOk now st) in E, D. simpl in E.
  split; [exact E|]. split; [exact D|].
  intros audioId a Hg Hold. unfold Tts.getAudioPath. rewrite E.
  assert (N : map_get audioId (filter (young now) (Tts.audioFiles st)) = None).
  { apply map_get_None_keys. intros Hin. unfold map_keys in Hin.
    apply in_map_iff in Hin as [[k a'] [Hk Hin]]. simpl in Hk. subst k.
    apply filter_In in Hin as [Hin Hy].
    rewrite (map_get_unique audioId a' _ Hnd Hin) in Hg. injection Hg as ->.
    unfold young in Hy. simpl in Hy. apply negb_true_iff in Hy.
    apply Z.ltb_ge in Hy. lia. }
  now rewrite N.
Qed.

Lemma X29_cleanup_keeps_the_young_entries_witness :
  NoDup (map_keys (Tts.audioFiles oneOldOneNew))
  /\ Tts.audioFiles (Tts.cleanupOldAudio (fun _ => true) 700000 oneOldOneNew)
     = filter (young 700000) (Tts.audioFiles oneOldOneNew)
  /\ Tts.getAudioPath (js "a")
       (Tts.cleanupOldAudio (fun _ => true) 700000 oneOldOneNew) = None.
Proof.
  assert (Hnd : NoDup (map_keys (Tts.audioFiles oneOldOneNew))).
  { simpl. repeat constructor; simpl; intuition discriminate. }
  split; [exact Hnd|].
  destruct (X29_cleanup_keeps_the_young_entries (fun _ => true) 700000
              oneOldOneNew Hnd) as [H1 [_ H3]].
  split; [exact H1|].
  apply (H3 (js "a") {| Tts.path := js "/tmp/audio/a.mp3";
                        Tts.createdAt := 0 |}).
  - reflexivity.
  - vm_compute. reflexivity.
Defined.

End ToolFacts.

(* ===================================================================== *)
(** ** A turn whose answer is not delivered                               *)
(* ===================================================================== *)

Section TurnFacts.
Import WhatsApp Spec Props Examples Scenarios.



End TurnFacts.
